(** * TDS-Project-1: the GitHub collector and two analysis cells

    A shallow embedding of the notebook [TDS_Project_1.ipynb]:
    the class [GitHubScraper] (request protocol, company clean-up, the two
    pagination loops), [main], and three analysis cells (top five by
    followers, leader strength, most common surnames).

    Modelling choices.
    - Python [str] values are Rocq strings over the ASCII range.  On that
      range [str.isspace] holds of the codes 9-13, 28-31 and 32, and
      [str.upper]/[str.lower] exchange [a-z] and [A-Z]; other codes are left
      alone.
    - Parsed JSON is the inductive type [json]; a Python [dict] is an
      association list read at its first matching key.
    - Exceptions are values of [exn]; the collector runs in a state and error
      monad over a [world] made of the HTTP exchanges still to come and the
      trace of requests and sleeps performed so far.
    - Wall-clock time is a rational number of seconds.  What Python does
      with floats is kept where it decides the outcome: an integer too large
      for a float, and a sleep too long for [time.sleep], raise
      [OverflowError].
    - [requests.get] is taken to send the request: addresses that
      [requests] refuses before sending are not modelled, nor are failures
      of the network. *)

From Stdlib Require Import ZArith QArith Qminmax Bool Ascii String Lia.
From Stdlib Require Import DecimalString.
From Stdlib Require Import List Permutation Sorted.
Import ListNotations.

Set Warnings "-register-all".

Local Open Scope string_scope.
Local Open Scope list_scope.
Local Open Scope Z_scope.

(** ** Python strings *)

Module PyStr.

Definition code (c : ascii) : nat := nat_of_ascii c.

(** [str.isspace] on one character. *)
Definition isspace (c : ascii) : bool :=
  let n := code c in
  ((9 <=? n) && (n <=? 13) || (28 <=? n) && (n <=? 32))%nat.

Definition upper_char (c : ascii) : ascii :=
  let n := code c in
  if ((97 <=? n) && (n <=? 122))%nat then ascii_of_nat (n - 32) else c.

Definition lower_char (c : ascii) : ascii :=
  let n := code c in
  if ((65 <=? n) && (n <=? 90))%nat then ascii_of_nat (n + 32) else c.

(** Drop the longest prefix whose characters satisfy [p]. *)
Fixpoint lstrip_by (p : ascii -> bool) (l : list ascii) : list ascii :=
  match l with
  | [] => []
  | c :: l' => if p c then lstrip_by p l' else l
  end.

Definition rstrip_by (p : ascii -> bool) (l : list ascii) : list ascii :=
  rev (lstrip_by p (rev l)).

(** [s.strip()] *)
Definition strip_chars (l : list ascii) : list ascii :=
  rstrip_by isspace (lstrip_by isspace l).

Definition is_at (c : ascii) : bool := Ascii.eqb c "@"%char.

(** [s.lstrip('@')]: the argument is a set of characters, here the one
    character ['@']. *)
Definition lstrip_at (l : list ascii) : list ascii := lstrip_by is_at l.

Definition strip (s : string) : string :=
  string_of_list_ascii (strip_chars (list_ascii_of_string s)).

Definition upper (s : string) : string :=
  string_of_list_ascii (map upper_char (list_ascii_of_string s)).

Definition lower (s : string) : string :=
  string_of_list_ascii (map lower_char (list_ascii_of_string s)).

(** [needle in hay] *)
Fixpoint contains (needle hay : string) : bool :=
  String.prefix needle hay ||
  match hay with
  | EmptyString => false
  | String _ hay' => contains needle hay'
  end.

End PyStr.

(** ** JSON values and Python's view of them *)

Inductive json : Type :=
| JNull
| JBool (b : bool)
| JNum (n : Z)
| JStr (s : string)
| JArr (items : list json)
| JObj (fields : list (string * json)).

Inductive exn : Type :=
| KeyError (key : string)
| TypeError
| AttributeError
| ValueError
| HTTPError (status : Z) (text : string)
| OverflowError
| IndexError.

Inductive result (A : Type) : Type :=
| Ok (a : A)
| Raise (e : exn)
| Pending.
Arguments Ok {A} a.
Arguments Raise {A} e.
Arguments Pending {A}.

Module Py.

(** Truth value of an object, as [if x] and [not x] test it. *)
Definition truthy (j : json) : bool :=
  match j with
  | JNull => false
  | JBool b => b
  | JNum n => negb (Z.eqb n 0)
  | JStr s => negb (String.eqb s "")
  | JArr l => match l with [] => false | _ => true end
  | JObj l => match l with [] => false | _ => true end
  end.

Fixpoint assoc (k : string) (l : list (string * json)) : option json :=
  match l with
  | [] => None
  | (k', v) :: l' => if String.eqb k k' then Some v else assoc k l'
  end.

(** [d[k]] with a string key: a [KeyError] on a dict without the key, a
    [TypeError] on anything that is not a dict. *)
Definition getitem (j : json) (k : string) : exn + json :=
  match j with
  | JObj l => match assoc k l with
              | Some v => inr v
              | None => inl (KeyError k)
              end
  | _ => inl TypeError
  end.

(** [d.get(k)] on a dict [d]: [None] when the key is absent. *)
Definition get (j : json) (k : string) : exn + json :=
  match j with
  | JObj l => match assoc k l with
              | Some v => inr v
              | None => inr JNull
              end
  | _ => inl AttributeError
  end.

(** [l[:n]] *)
Definition slice_to {A : Type} (l : list A) (n : Z) : list A :=
  if 0 <=? n then firstn (Z.to_nat n) l
  else firstn (Z.to_nat (Z.of_nat (length l) + n)) l.

End Py.

(** ** The outside world: HTTP exchanges, the clock, the trace *)

(** The [X-RateLimit-Reset] header of a response, seen through
    [int(response.headers.get('X-RateLimit-Reset', 0))]. *)
Inductive reset_header : Type :=
| NoResetHeader               (* header absent: the default 0 is used *)
| ResetAt (epoch : Z)         (* header text that [int] reads as [epoch] *)
| ResetGarbled.               (* header text on which [int] raises *)

Record response : Type := {
  status_code : Z;
  rate_limit_reset : reset_header;
  json_body : option json;    (* [response.json()]; [None] when the body is not JSON *)
  text : string
}.

(** One answer of the server, with the value [time.time()] has while the
    answer is handled. *)
Record exchange : Type := {
  reply : response;
  clock : Q
}.

Inductive request : Type :=
| SearchUsersPage (location : string) (min_followers : Z) (page : Z)
| UserProfile (url : json)
| UserReposPage (username : json) (page : Z).

Inductive event : Type :=
| Get (rq : request)
| Sleep (seconds : Q).

Record world : Type := {
  incoming : list exchange;   (* answers the server will give, in order *)
  trace : list event          (* what the collector did so far, oldest first *)
}.

(** Computations of the collector.  [Pending] is the state of a run that
    has issued a request and has no answer yet. *)
Definition M (A : Type) : Type := world -> result A * world.

Definition ret {A : Type} (a : A) : M A := fun w => (Ok a, w).

Definition raise {A : Type} (e : exn) : M A := fun w => (Raise e, w).

Definition bind {A B : Type} (m : M A) (k : A -> M B) : M B :=
  fun w =>
    match m w with
    | (Ok a, w') => k a w'
    | (Raise e, w') => (Raise e, w')
    | (Pending, w') => (Pending, w')
    end.

Definition lift {A : Type} (x : exn + A) : M A :=
  match x with
  | inr a => ret a
  | inl e => raise e
  end.

Definition ebind {A B : Type} (x : exn + A) (k : A -> exn + B) : exn + B :=
  match x with
  | inr a => k a
  | inl e => inl e
  end.

Declare Scope collector_scope.
Delimit Scope collector_scope with collector.
Notation "x <- m ;; k" := (bind m (fun x => k))
  (at level 61, m at next level, right associativity) : collector_scope.
Notation "x <~ m ;; k" := (ebind m (fun x => k))
  (at level 61, m at next level, right associativity) : collector_scope.
Local Open Scope collector_scope.

(** ** The collector: class [GitHubScraper] *)

Module GitHubScraper.

Import PyStr Py.

(** [requests.Response.raise_for_status] raises an [HTTPError] exactly for
    the client and server error codes, 400 to 599. *)
Definition raises_for_status (status : Z) : bool :=
  (400 <=? status) && (status <? 600).

Definition reset_time (h : reset_header) : exn + Z :=
  match h with
  | NoResetHeader => inr 0
  | ResetAt epoch => inr epoch
  | ResetGarbled => inl ValueError
  end.

(** [sleep_time = max(reset_time - time.time(), 0) + 1] *)
Definition sleep_time (reset : Z) (now : Q) : Q :=
  (Qmax (inject_Z reset - now) 0 + 1)%Q.

(** [reset_time - time.time()] turns the integer into a float first, which
    raises [OverflowError] for an integer that rounds beyond the largest
    float. *)
Definition float_overflows (n : Z) : bool :=
  2 ^ 1024 - 2 ^ 970 <=? Z.abs n.

(** [time.sleep] keeps its argument as a signed 64-bit number of
    nanoseconds and raises [OverflowError] for one that does not fit. *)
Definition sleep_overflows (seconds : Q) : bool :=
  Qle_bool (inject_Z (2 ^ 63)) (seconds * inject_Z (10 ^ 9)).

(** The [while True] loop of [_make_request].  Every turn issues one
    request and takes the next answer of the server, so the loop is a
    recursion on the answers to come. *)
Fixpoint request_loop (rq : request) (answers : list exchange)
         (done : list event) : result json * world :=
  let done := done ++ [Get rq] in
  match answers with
  | [] => (Pending, {| incoming := []; trace := done |})
  | x :: rest =>
      let response := reply x in
      if status_code response =? 200 then
        match json_body response with
        | Some body => (Ok body, {| incoming := rest; trace := done |})
        | None => (Raise ValueError, {| incoming := rest; trace := done |})
        end
      else if status_code response =? 403 then
        match reset_time (rate_limit_reset response) with
        | inr reset =>
            if float_overflows reset
               || sleep_overflows (sleep_time reset (clock x))
            then (Raise OverflowError, {| incoming := rest; trace := done |})
            else
              request_loop rq rest
                           (done ++ [Sleep (sleep_time reset (clock x))])
        | inl e => (Raise e, {| incoming := rest; trace := done |})
        end
      else if raises_for_status (status_code response) then
        (Raise (HTTPError (status_code response) (text response)),
         {| incoming := rest; trace := done |})
      else request_loop rq rest done
  end.

Definition _make_request (rq : request) : M json :=
  fun w => request_loop rq (incoming w) (trace w).

(** [clean_company_name]; the argument is what [user_data.get('company')]
    gives, a string or [None] for the declared type. *)
Definition clean_company_name (company : json) : exn + string :=
  if negb (truthy company) then inr ""
  else
    match company with
    | JStr s =>
        let cleaned :=
          string_of_list_ascii (lstrip_at (list_ascii_of_string (strip s))) in
        inr (upper cleaned)
    | _ => inl AttributeError
    end.

Record user_record : Type := {
  login : json;
  name : json;
  company : string;
  location : json;
  email : json;
  hireable : json;
  bio : json;
  public_repos : json;
  followers : json;
  following : json;
  created_at : json
}.

(** [d[k] if d[k] else ""] *)
Definition item_or_empty (d : json) (k : string) : exn + json :=
  test <~ getitem d k ;;
  if truthy test then getitem d k else inr (JStr "").

(** [d[k] if d[k] is not None else False] *)
Definition item_or_false (d : json) (k : string) : exn + json :=
  test <~ getitem d k ;;
  match test with
  | JNull => inr (JBool false)
  | _ => getitem d k
  end.

(** The dict display [cleaned_data = {...}], entries evaluated in order. *)
Definition cleaned_data (user_data : json) : exn + user_record :=
  v_login <~ getitem user_data "login" ;;
  v_name <~ item_or_empty user_data "name" ;;
  raw_company <~ get user_data "company" ;;
  v_company <~ clean_company_name raw_company ;;
  v_location <~ item_or_empty user_data "location" ;;
  v_email <~ item_or_empty user_data "email" ;;
  v_hireable <~ item_or_false user_data "hireable" ;;
  v_bio <~ item_or_empty user_data "bio" ;;
  v_public_repos <~ getitem user_data "public_repos" ;;
  v_followers <~ getitem user_data "followers" ;;
  v_following <~ getitem user_data "following" ;;
  v_created_at <~ getitem user_data "created_at" ;;
  inr {| login := v_login; name := v_name; company := v_company;
         location := v_location; email := v_email; hireable := v_hireable;
         bio := v_bio; public_repos := v_public_repos;
         followers := v_followers; following := v_following;
         created_at := v_created_at |}.

(** [for user in response['items']: ...] *)
Fixpoint each_user (items : list json) (users : list user_record)
  : M (list user_record) :=
  match items with
  | [] => ret users
  | user :: rest =>
      url <- lift (getitem user "url") ;;
      user_data <- _make_request (UserProfile url) ;;
      cleaned <- lift (cleaned_data user_data) ;;
      each_user rest (users ++ [cleaned])
  end.

(** The [while True] loop of [search_users], one turn per unit of
    [fuel]. *)
Fixpoint search_loop (fuel : nat) (loc : string) (min_followers : Z)
         (page : Z) (users : list user_record) : M (list user_record) :=
  match fuel with
  | O => fun w => (Pending, w)
  | S fuel' =>
      response <- _make_request (SearchUsersPage loc min_followers page) ;;
      items <- lift (getitem response "items") ;;
      if negb (truthy items) then ret users
      else
        match items with
        | JArr l =>
            users' <- each_user l users ;;
            search_loop fuel' loc min_followers (page + 1) users'
        | _ => raise TypeError
        end
  end.

(** Every turn of the loop takes at least one answer, so one unit of fuel
    per answer to come, and one more, is enough (see
    [search_loop_fuel]). *)
Definition search_users (loc : string) (min_followers : Z)
  : M (list user_record) :=
  fun w => search_loop (S (length (incoming w))) loc min_followers 1 [] w.

Record repo_record : Type := {
  repo_login : json;
  full_name : json;
  repo_created_at : json;
  stargazers_count : json;
  watchers_count : json;
  language : json;
  has_projects : json;
  has_wiki : json;
  license_name : json
}.

(** [repo['license']['key'] if repo.get('license') else ""] *)
Definition license_key (repo : json) : exn + json :=
  test <~ get repo "license" ;;
  if truthy test then
    license <~ getitem repo "license" ;;
    getitem license "key"
  else inr (JStr "").

(** The dict display [repo_data = {...}], entries evaluated in order. *)
Definition repo_data (username : json) (repo : json) : exn + repo_record :=
  v_full_name <~ getitem repo "full_name" ;;
  v_created_at <~ getitem repo "created_at" ;;
  v_stargazers_count <~ getitem repo "stargazers_count" ;;
  v_watchers_count <~ getitem repo "watchers_count" ;;
  v_language <~ item_or_empty repo "language" ;;
  v_has_projects <~ getitem repo "has_projects" ;;
  v_has_wiki <~ getitem repo "has_wiki" ;;
  v_license_name <~ license_key repo ;;
  inr {| repo_login := username; full_name := v_full_name;
         repo_created_at := v_created_at;
         stargazers_count := v_stargazers_count;
         watchers_count := v_watchers_count; language := v_language;
         has_projects := v_has_projects; has_wiki := v_has_wiki;
         license_name := v_license_name |}.

(** [for repo in response: ...] *)
Fixpoint each_repo (username : json) (response : list json)
         (repos : list repo_record) : exn + list repo_record :=
  match response with
  | [] => inr repos
  | repo :: rest =>
      data <~ repo_data username repo ;;
      each_repo username rest (repos ++ [data])
  end.

(** The loop [while len(repos) < max_repos] of [get_user_repositories],
    one turn per unit of [fuel]. *)
Fixpoint repos_loop (fuel : nat) (username : json) (max_repos : Z)
         (page : Z) (repos : list repo_record) : M (list repo_record) :=
  if Z.of_nat (length repos) <? max_repos then
    match fuel with
    | O => fun w => (Pending, w)
    | S fuel' =>
        response <- _make_request (UserReposPage username page) ;;
        if negb (truthy response) then ret repos
        else
          match response with
          | JArr l =>
              repos' <- lift (each_repo username l repos) ;;
              if Z.of_nat (length l) <? 100 then ret repos'
              else repos_loop fuel' username max_repos (page + 1) repos'
          | _ => raise TypeError
          end
    end
  else ret repos.

(** [get_user_repositories(username, max_repos)], ending in
    [return repos[:max_repos]]. *)
Definition get_user_repositories (username : json) (max_repos : Z)
  : M (list repo_record) :=
  fun w =>
    (repos <- repos_loop (S (length (incoming w))) username max_repos 1 [] ;;
     ret (slice_to repos max_repos)) w.

Definition default_max_repos : Z := 500.

End GitHubScraper.

(** ** [main] *)

Import GitHubScraper.

(** [for user in users: repos = scraper.get_user_repositories(user['login']);
    all_repos.extend(repos)] *)
Fixpoint each_login (users : list user_record) (all_repos : list repo_record)
  : M (list repo_record) :=
  match users with
  | [] => ret all_repos
  | user :: rest =>
      repos <- get_user_repositories (login user) default_max_repos ;;
      each_login rest (all_repos ++ repos)
  end.

(** [main], given the line typed at the token prompt.  The result is
    [None] when the run stops for want of a token, and otherwise the two
    tables that are written to [users.csv] and [repositories.csv]. *)
Definition main (typed : string)
  : M (option (list user_record * list repo_record)) :=
  let token := PyStr.strip typed in
  if negb (Py.truthy (JStr token)) then ret None
  else
    users <- search_users "Seattle" 200 ;;
    all_repos <- each_login users [] ;;
    ret (Some (users, all_repos)).

(** ** The analysis cells *)

Module Analysis.

(** A row of [users.csv], with the two counts already read as integers
    ([int(row['followers'])] in the first cell, the numeric columns of
    [users_df] in the other). *)
Record user_row : Type := {
  row_login : string;
  row_location : string;
  row_followers : Z;
  row_following : Z
}.

Section Sorted_reverse.

Context {A K : Type}.
Variable leb : K -> K -> bool.
Variable key : A -> K.

(** [x] comes earlier in the input than everything in [l]: it goes in
    front of the first element whose key is not above its own. *)
Fixpoint insert_desc (x : A) (l : list A) : list A :=
  match l with
  | [] => [x]
  | y :: l' =>
      if leb (key y) (key x) then x :: l else y :: insert_desc x l'
  end.

(** [sorted(l, key=key, reverse=True)]: descending keys, equal keys in
    input order. *)
Definition sorted_reverse (l : list A) : list A :=
  fold_right insert_desc [] l.

(** The elements whose key is level with [k]. *)
Definition tied (k : K) (x : A) : bool :=
  leb k (key x) && leb (key x) k.

(** [a] may stand before [b] in a descending list. *)
Definition not_below (a b : A) : Prop := leb (key b) (key a) = true.

End Sorted_reverse.

(** *** Cell: top five users in Seattle by followers *)

(** [location = row['location'].strip().lower()], then
    ['seattle' in location] *)
Definition in_seattle (row : user_row) : bool :=
  PyStr.contains "seattle" (PyStr.lower (PyStr.strip (row_location row))).

(** The list of [{'login': ..., 'followers': ...}] entries. *)
Definition users_in_seattle (table : list user_row) : list (string * Z) :=
  map (fun row => (row_login row, row_followers row))
      (filter in_seattle table).

Definition top_users (table : list user_row) : list (string * Z) :=
  sorted_reverse Z.leb snd (users_in_seattle table).

(** [[user['login'] for user in top_users[:5]]] *)
Definition top_5_logins (table : list user_row) : list string :=
  map fst (firstn 5 (top_users table)).

(** *** Cell: leader strength *)

(** [followers / (1 + following)], as an exact quotient. *)
Definition leader_strength (row : user_row) : Q :=
  (inject_Z (row_followers row) / (1 + inject_Z (row_following row)))%Q.

(** [users_df.sort_values(by='leader_strength', ascending=False)
    .head(5)['login'].tolist()].  The order pandas gives to rows with equal
    strength is not fixed; here they keep the input order. *)
Definition top_5_leader_strength (table : list user_row) : list string :=
  map row_login (firstn 5 (sorted_reverse Qle_bool leader_strength table)).

End Analysis.

(** ** The cell of the most common surnames *)

Module Surnames.

Import PyStr Analysis.

(** A row as [csv.DictReader] gives it: the column names with the row's
    values, read at the first matching name.  A value is a string, or [None]
    for a column that the line is too short to reach. *)
Definition csv_row : Type := list (string * option string).

(** [row.get(k, default)] *)
Fixpoint row_get (row : csv_row) (k : string) (default : option string)
  : option string :=
  match row with
  | [] => default
  | (k', v) :: row' => if String.eqb k k' then v else row_get row' k default
  end.

(** [s.split()] on the characters: the runs of characters that are not
    white space, in order.  A character that is not white space ends a word
    when white space or nothing follows it, and is otherwise put in front of
    the word that follows. *)
Fixpoint split_chars (l : list ascii) : list (list ascii) :=
  match l with
  | [] => []
  | c :: l' =>
      if isspace c then split_chars l'
      else
        match l' with
        | [] => [[c]]
        | c' :: _ =>
            if isspace c' then [c] :: split_chars l'
            else
              match split_chars l' with
              | word :: words => (c :: word) :: words
              | [] => [[c]]
              end
        end
  end.

Definition split (s : string) : list string :=
  map string_of_list_ascii (split_chars (list_ascii_of_string s)).

(** [l[-1]]: [None] stands for the [IndexError] of an empty list. *)
Fixpoint item_last {A : Type} (l : list A) : option A :=
  match l with
  | [] => None
  | [a] => Some a
  | _ :: l' => item_last l'
  end.

(** A [Counter]: the keys in the order they were first counted, each with
    its count. *)
Definition counter : Type := list (string * Z).

(** [c[k]], which is 0 for a key that was never counted. *)
Fixpoint counter_get (c : counter) (k : string) : Z :=
  match c with
  | [] => 0
  | (k', n) :: c' => if String.eqb k k' then n else counter_get c' k
  end.

(** [c[k] += 1] *)
Fixpoint increment (c : counter) (k : string) : counter :=
  match c with
  | [] => [(k, 0 + 1)]
  | (k', n) :: c' =>
      if String.eqb k k' then (k', n + 1) :: c' else (k', n) :: increment c' k
  end.

(** The loop over the rows.  [None] has no [strip], and an empty list has
    no last item. *)
Fixpoint count_rows (rows : list csv_row) (surname_counter : counter)
  : exn + counter :=
  match rows with
  | [] => inr surname_counter
  | row :: rows' =>
      match row_get row "name" (Some "") with
      | None => inl AttributeError
      | Some value =>
          let name := strip value in
          if negb (String.eqb name "") then
            match item_last (split name) with
            | Some surname =>
                count_rows rows' (increment surname_counter surname)
            | None => inl IndexError
            end
          else count_rows rows' surname_counter
      end
  end.

(** [max(values)] of a list that is not empty. *)
Definition max_of (first : Z) (others : list Z) : Z :=
  fold_left Z.max others first.

(** [l.sort()] on strings: ascending, which is the reverse order of the
    reversed comparison. *)
Definition sort (l : list string) : list string :=
  sorted_reverse (fun a b => String.leb b a) (fun s => s) l.

(** The surnames with the highest count, sorted, and that count; [None]
    for an empty counter. *)
Definition most_common_surnames (surname_counter : counter)
  : option (list string * Z) :=
  match surname_counter with
  | [] => None
  | (_, first) :: others =>
      let max_count := max_of first (map snd others) in
      Some (sort (map fst (filter (fun kv => snd kv =? max_count)
                                  surname_counter)),
            max_count)
  end.

(** [str(n)] for an integer. *)
Definition str_of_int (n : Z) : string := NilZero.string_of_int (Z.to_int n).

(** The line the cell prints, when the loop has not failed. *)
Definition printed (rows : list csv_row) : exn + string :=
  match count_rows rows [] with
  | inl e => inl e
  | inr surname_counter =>
      match most_common_surnames surname_counter with
      | Some (surnames, max_count) =>
          inr (String.concat ", " surnames ++ ": " ++ str_of_int max_count)%string
      | None => inr "No names found."
      end
  end.

End Surnames.

(** * Vocabulary of the statements *)

Module Words.

Import PyStr Py GitHubScraper.

(** A list with no white space at either end. *)
Definition trimmed (l : list ascii) : Prop :=
  (forall c r, l = c :: r -> isspace c = false) /\
  (forall c r, l = r ++ [c] -> isspace c = false).

(** The company clean-up in the words of the specification: trim the
    surrounding white space, strip a single leading ["@"], uppercase the
    remainder; the empty string for an empty or absent company. *)
Definition strip_single_at (l : list ascii) : list ascii :=
  match l with
  | c :: l' => if is_at c then l' else l
  | [] => []
  end.

Definition company_as_specified (company : option string) : string :=
  match company with
  | None => ""
  | Some s =>
      upper (string_of_list_ascii
               (strip_single_at (list_ascii_of_string (strip s))))
  end.

(** The reset epoch a rate-limited answer carries: the header read as an
    integer, 0 without the header. *)
Definition reset_epoch (x : exchange) : Z :=
  match rate_limit_reset (reply x) with
  | ResetAt epoch => epoch
  | _ => 0
  end.

(** An answer with status 403 that can be waited out: its reset header,
    when there is one, reads as an integer, one that a float holds, and the
    wait [max(reset_epoch - now, 0) + 1] is one that [time.sleep] takes. *)
Definition rate_limit_hit (x : exchange) : Prop :=
  status_code (reply x) = 403 /\
  rate_limit_reset (reply x) <> ResetGarbled /\
  float_overflows (reset_epoch x) = false /\
  sleep_overflows (Qmax (inject_Z (reset_epoch x) - clock x) 0 + 1)%Q = false.

(** What the collector does while it meets the answers [hits]: for each, the
    request and then a sleep of [max(reset_epoch - now, 0) + 1] seconds. *)
Definition waits (rq : request) (hits : list exchange) : list event :=
  flat_map
    (fun x => [Get rq; Sleep (Qmax (inject_Z (reset_epoch x) - clock x) 0 + 1)%Q])
    hits.

(** Answers used in the examples. *)
Definition answer (status : Z) (reset : reset_header) (body : option json)
           (now : Q) : exchange :=
  {| reply := {| status_code := status; rate_limit_reset := reset;
                 json_body := body; text := "" |};
     clock := now |}.

Definition ok_answer (body : json) : exchange :=
  answer 200 NoResetHeader (Some body) 0.

(** An event that is a sleep, or a request satisfying [P]. *)
Definition only (P : request -> Prop) (e : event) : Prop :=
  match e with
  | Get rq => P rq
  | Sleep _ => True
  end.

(** A computation that adds to the trace nothing but sleeps and requests
    satisfying [P], and that takes its answers from the front of those to
    come. *)
Definition steady {A : Type} (P : request -> Prop) (m : M A) : Prop :=
  forall w r w',
    m w = (r, w') ->
    (exists tl, trace w' = trace w ++ tl /\ Forall (only P) tl) /\
    (exists used, incoming w = used ++ incoming w').

(** A repository as the listing endpoint describes it, and a profile as
    the user endpoint does, for the examples. *)
Definition sample_repo (full_name : string) : json :=
  JObj [("full_name", JStr full_name); ("created_at", JStr "2020-01-02T03:04:05Z");
        ("stargazers_count", JNum 3); ("watchers_count", JNum 3);
        ("language", JNull); ("has_projects", JBool true);
        ("has_wiki", JBool false); ("license", JNull)].

Definition sample_profile (login : string) : json :=
  JObj [("login", JStr login); ("name", JNull); ("company", JStr " @acme ");
        ("location", JNull); ("email", JNull); ("hireable", JNull);
        ("bio", JNull); ("public_repos", JNum 2); ("followers", JNum 250);
        ("following", JNum 1); ("created_at", JStr "2015-05-05T05:05:05Z")].

(** The record [get_user_repositories] makes of [sample_repo]. *)
Definition sample_repo_record (username full_name : string) : repo_record :=
  {| repo_login := JStr username; full_name := JStr full_name;
     repo_created_at := JStr "2020-01-02T03:04:05Z";
     stargazers_count := JNum 3; watchers_count := JNum 3;
     language := JStr ""; has_projects := JBool true;
     has_wiki := JBool false; license_name := JStr "" |}.

(** A body that is among the answers of the server. *)
Definition fetched (answers : list exchange) (body : json) : Prop :=
  exists x, In x answers /\ json_body (reply x) = Some body.

(** The keys [cleaned_data] reads by indexing. *)
Definition indexed_keys : list string :=
  ["login"; "name"; "location"; "email"; "hireable"; "bio"; "public_repos";
   "followers"; "following"; "created_at"].

(** The record [search_users] makes of [sample_profile]. *)
Definition sample_user_record (login : string) : user_record :=
  {| login := JStr login; name := JStr ""; company := "ACME";
     location := JStr ""; email := JStr ""; hireable := JBool false;
     bio := JStr ""; public_repos := JNum 2; followers := JNum 250;
     following := JNum 1; created_at := JStr "2015-05-05T05:05:05Z" |}.

(** A page of search results, one hit per profile address. *)
Definition search_page (urls : list string) : json :=
  JObj [("total_count", JNum (Z.of_nat (length urls)));
        ("items", JArr (map (fun url => JObj [("url", JStr url)]) urls))].

(** The pages of the search a trace asked for. *)
Definition search_pages (tr : list event) : list Z :=
  flat_map (fun e => match e with
                     | Get (SearchUsersPage _ _ page) => [page]
                     | _ => []
                     end) tr.

(** A user record made by [cleaned_data] from a body among [answers]. *)
Definition cleaned_from (answers : list exchange) (u : user_record) : Prop :=
  exists user_data,
    fetched answers user_data /\ cleaned_data user_data = inr u.

(** [sample_profile] without one of its keys. *)
Definition sample_profile_without (key login : string) : json :=
  match sample_profile login with
  | JObj fields =>
      JObj (filter (fun kv => negb (String.eqb (fst kv) key)) fields)
  | other => other
  end.

(** A request that, when it lists repositories, lists those of one of
    [logins]. *)
Definition lists_repos_of (logins : list json) (rq : request) : Prop :=
  forall username page, rq = UserReposPage username page -> In username logins.

(** A computation whose additions to the trace all satisfy [Q]. *)
Definition adds {A : Type} (Q : event -> Prop) (m : M A) : Prop :=
  forall w r w',
    m w = (r, w') -> exists tl, trace w' = trace w ++ tl /\ Forall Q tl.

(** An answer after which [_make_request] sends its request again: not a
    200, and either a 403 or a status that [raise_for_status] lets pass. *)
Definition passed_over (x : exchange) : Prop :=
  status_code (reply x) <> 200 /\
  (status_code (reply x) = 403 \/ ~ 400 <= status_code (reply x) < 600).

(** The number of requests in a trace. *)
Definition requests_in (tr : list event) : nat :=
  length (filter (fun e => match e with Get _ => true | Sleep _ => false end) tr).

(** What one call [_make_request rq] may add to the trace: the request
    [rq], and sleeps of a second or more. *)
Definition request_event (rq : request) (e : event) : Prop :=
  match e with
  | Get rq' => rq' = rq
  | Sleep seconds => (1 <= seconds)%Q
  end.

(** How the answers [used] by a call of [_make_request] decide its
    result [r]: all but the last are passed over, and the last is a 200
    whose body is returned, or an error status from 400 to 599 other than 403
    raised with its text, or a 403 at which [OverflowError] is raised; a
    pending call has passed over all the answers there were.  Nothing is
    said of a [ValueError]. *)
Definition decided_by (r : result json) (used : list exchange) : Prop :=
  match r with
  | Ok body =>
      exists before x,
        used = before ++ [x] /\ Forall passed_over before /\
        status_code (reply x) = 200 /\ json_body (reply x) = Some body
  | Raise (HTTPError status message) =>
      exists before x,
        used = before ++ [x] /\ Forall passed_over before /\
        status_code (reply x) = status /\ text (reply x) = message /\
        400 <= status < 600 /\ status <> 403
  | Raise OverflowError =>
      exists before x,
        used = before ++ [x] /\ Forall passed_over before /\
        status_code (reply x) = 403
  | Raise ValueError => True
  | Raise _ => False
  | Pending => Forall passed_over used
  end.

(** One more request than answers for a pending call, as many otherwise. *)
Definition requests_for (r : result json) (used : list exchange) : nat :=
  match r with
  | Pending => S (length used)
  | _ => length used
  end.

(** What [get_user_repositories username max_repos] may add to the trace:
    sleeps of a second or more, and requests for pages of [username]'s
    repositories, numbered from 1 and each opened while fewer than
    [max_repos] records were gathered at 100 or more a page. *)
Definition repos_event (username : json) (max_repos : Z) (e : event) : Prop :=
  match e with
  | Get (UserReposPage u page) =>
      u = username /\ 1 <= page /\ 100 * (page - 1) < max_repos
  | Get _ => False
  | Sleep seconds => (1 <= seconds)%Q
  end.

(** What [main] may add to the trace. *)
Definition main_event (e : event) : Prop :=
  match e with
  | Get (SearchUsersPage loc min_followers page) =>
      loc = "Seattle" /\ min_followers = 200 /\ 1 <= page
  | Get (UserProfile _) => True
  | Get (UserReposPage _ page) => 1 <= page <= 5
  | Sleep seconds => (1 <= seconds)%Q
  end.

(** A lower-case letter, [a] to [z]. *)
Definition is_lower (c : ascii) : bool :=
  let n := code c in ((97 <=? n) && (n <=? 122))%nat.

(** [v if v else ""] and [v if v is not None else False] *)
Definition or_empty (v : json) : json := if truthy v then v else JStr "".

Definition or_false (v : json) : json :=
  match v with
  | JNull => JBool false
  | _ => v
  end.

(** [f] on every element in turn, stopping at the first exception. *)
Fixpoint collect {A B : Type} (f : A -> exn + B) (l : list A) : exn + list B :=
  match l with
  | [] => inr []
  | a :: l' =>
      b <~ f a ;;
      bs <~ collect f l' ;;
      inr (b :: bs)
  end.

(** A server that answers every request with a 200: the pages of a
    repository listing, one answer each. *)
Definition repos_script (pages : list (list json)) : list exchange :=
  map (fun page => ok_answer (JArr page)) pages.

(** Requests for [n] pages of [username]'s repositories, from [page] on. *)
Fixpoint page_requests (username : json) (page : Z) (n : nat) : list event :=
  match n with
  | O => []
  | S n' => Get (UserReposPage username page) :: page_requests username (page + 1) n'
  end.

(** A search hit is a pair of the item in the search results and the
    profile its address gives; a page of the search is its body with its
    hits. *)
Definition hit_url (item : json) : json :=
  match getitem item "url" with
  | inr url => url
  | inl _ => JNull
  end.

Definition hit_answers (hits : list (json * json)) : list exchange :=
  map (fun hit => ok_answer (snd hit)) hits.

Definition hit_requests (hits : list (json * json)) : list event :=
  map (fun hit => Get (UserProfile (hit_url (fst hit)))) hits.

Definition page_of_hits (page : json * list (json * json)) : Prop :=
  getitem (fst page) "items" = inr (JArr (map fst (snd page))) /\
  snd page <> [] /\
  Forall (fun hit => exists url, getitem (fst hit) "url" = inr url) (snd page).

(** A server that answers every request with a 200: each page of hits
    followed by the profiles of its hits, and then a page without items. *)
Definition search_script (pages : list (json * list (json * json)))
           (last : json) : list exchange :=
  flat_map (fun page => ok_answer (fst page) :: hit_answers (snd page)) pages
  ++ [ok_answer last].

Fixpoint search_trace (loc : string) (min_followers : Z) (page : Z)
         (pages : list (json * list (json * json))) : list event :=
  match pages with
  | [] => [Get (SearchUsersPage loc min_followers page)]
  | p :: pages' =>
      Get (SearchUsersPage loc min_followers page)
      :: hit_requests (snd p)
      ++ search_trace loc min_followers (page + 1) pages'
  end.

End Words.

(** Vocabulary for the cell of the most common surnames. *)
Module SurnameWords.

Import PyStr Surnames.

(** A row whose name is [None]: the table has the column and the line
    was too short to reach it. *)
Definition nameless (row : csv_row) : Prop :=
  row_get row "name" (Some "") = None.

(** A row whose name is a string, the empty one of a table without the
    column included. *)
Definition named (row : csv_row) : Prop :=
  exists value, row_get row "name" (Some "") = Some value.

(** The surname the loop counts for a row: none for a row whose name is
    missing, empty or blank. *)
Definition surname_of (row : csv_row) : option string :=
  match row_get row "name" (Some "") with
  | Some value =>
      let name := strip value in
      if negb (String.eqb name "") then item_last (split name) else None
  | None => None
  end.

Definition surnames (rows : list csv_row) : list string :=
  flat_map (fun row => match surname_of row with
                       | Some surname => [surname]
                       | None => []
                       end) rows.

(** How many of the rows have the surname [s]. *)
Definition frequency (rows : list csv_row) (s : string) : Z :=
  Z.of_nat (count_occ string_dec (surnames rows) s).

Definition not_space (c : ascii) : bool := negb (isspace c).

(** A list that is empty or ends in white space. *)
Definition at_word_start (before : list ascii) : Prop :=
  forall b c, before = b ++ [c] -> isspace c = true.

(** A counter as the loop keeps it: no key twice, every count at least 1. *)
Definition tidy (c : counter) : Prop :=
  NoDup (map fst c) /\ Forall (fun kv => 1 <= snd kv) c.

(** Ascending order of strings. *)
Definition string_le (a b : string) : Prop := String.leb a b = true.

End SurnameWords.

(** * Properties *)

(** ** Stripping characters *)

Module PyStrFacts.

Import PyStr Words.

Lemma lstrip_by_split (p : ascii -> bool) (l : list ascii) :
  exists pre, l = pre ++ lstrip_by p l /\ forallb p pre = true.
Proof.
  induction l as [|c l IH]; simpl.
  - exists []. now split.
  - destruct (p c) eqn:Hc.
    + destruct IH as (pre & Hl & Hpre).
      exists (c :: pre). simpl. rewrite Hc, Hpre. split; [now f_equal | reflexivity].
    + exists []. now split.
Qed.

Lemma lstrip_by_head (p : ascii -> bool) (l : list ascii) c r :
  lstrip_by p l = c :: r -> p c = false.
Proof.
  induction l as [|d l IH]; simpl; [discriminate|].
  destruct (p d) eqn:Hd; [exact IH|].
  intros H. injection H as -> _. exact Hd.
Qed.

Lemma rstrip_by_split (p : ascii -> bool) (l : list ascii) :
  exists post, l = rstrip_by p l ++ post /\ forallb p post = true.
Proof.
  unfold rstrip_by.
  destruct (lstrip_by_split p (rev l)) as (pre & Hl & Hpre).
  exists (rev pre). split.
  - rewrite <- rev_app_distr, <- Hl. symmetry. apply rev_involutive.
  - rewrite forallb_forall in *. intros x Hx. apply Hpre. now apply in_rev.
Qed.

Lemma rstrip_by_last (p : ascii -> bool) (l : list ascii) c r :
  rstrip_by p l = r ++ [c] -> p c = false.
Proof.
  unfold rstrip_by. intros H.
  apply (f_equal (@rev ascii)) in H.
  rewrite rev_involutive, rev_app_distr in H. simpl in H.
  exact (lstrip_by_head _ _ _ _ H).
Qed.

(** Stripping on the right keeps a head that is itself kept. *)
Lemma rstrip_by_head (p : ascii -> bool) (l : list ascii) c r :
  rstrip_by p l = c :: r -> exists r', l = c :: r'.
Proof.
  intros H. destruct (rstrip_by_split p l) as (post & Hl & _).
  rewrite H in Hl. simpl in Hl. eauto.
Qed.

Lemma strip_chars_trimmed (l : list ascii) : trimmed (strip_chars l).
Proof.
  unfold strip_chars. split; intros c r H.
  - destruct (rstrip_by_head _ _ _ _ H) as (r' & H').
    exact (lstrip_by_head _ _ _ _ H').
  - exact (rstrip_by_last _ _ _ _ H).
Qed.

Lemma strip_chars_split (l : list ascii) :
  exists pre post,
    l = pre ++ strip_chars l ++ post /\
    forallb isspace pre = true /\ forallb isspace post = true.
Proof.
  unfold strip_chars.
  destruct (lstrip_by_split isspace l) as (pre & Hl & Hpre).
  destruct (rstrip_by_split isspace (lstrip_by isspace l)) as (post & Hm & Hpost).
  exists pre, post. repeat split; try assumption.
  rewrite <- Hm. exact Hl.
Qed.

Lemma is_at_spec (c : ascii) : is_at c = true <-> c = "@"%char.
Proof. unfold is_at. apply Ascii.eqb_eq. Qed.

End PyStrFacts.

(** ** [clean_company_name] *)

Section Clean_company_name.

Import PyStr Py GitHubScraper Words PyStrFacts.

Lemma clean_company_name_str (s : string) :
  clean_company_name (JStr s) =
  inr (string_of_list_ascii
         (map upper_char (lstrip_at (strip_chars (list_ascii_of_string s))))).
Proof.
  unfold clean_company_name, truthy.
  destruct (String.eqb_spec s "") as [-> | _]; [reflexivity|].
  cbn [negb]. unfold upper, strip.
  now rewrite !list_ascii_of_string_of_list_ascii.
Qed.

(** C1, as the code has it: an absent company gives the empty string, and
    a string [s] splits as leading white space, a run of ["@"], a core that
    does not start with ["@"], and trailing white space, the middle part
    being [s] trimmed; the result is the core in upper case.  Every leading
    ["@"] is stripped, not only the first. *)
Theorem clean_company_name_strips_every_at :
  clean_company_name JNull = inr "" /\
  forall s : string,
  exists pre ats core post : list ascii,
    list_ascii_of_string s = pre ++ (ats ++ core) ++ post /\
    forallb isspace pre = true /\
    forallb isspace post = true /\
    trimmed (ats ++ core) /\
    forallb is_at ats = true /\
    (forall r, core <> "@"%char :: r) /\
    clean_company_name (JStr s) =
    inr (string_of_list_ascii (map upper_char core)).
Proof.
  split; [reflexivity|]. intros s.
  destruct (strip_chars_split (list_ascii_of_string s))
    as (pre & post & Hs & Hpre & Hpost).
  destruct (lstrip_by_split is_at (strip_chars (list_ascii_of_string s)))
    as (ats & Hmid & Hats).
  exists pre, ats, (lstrip_at (strip_chars (list_ascii_of_string s))), post.
  unfold lstrip_at at 1 2. rewrite <- Hmid.
  repeat split; try assumption.
  - apply strip_chars_trimmed.
  - apply strip_chars_trimmed.
  - intros r Hr. apply lstrip_by_head in Hr. discriminate Hr.
  - apply clean_company_name_str.
Qed.

(** C1, as the specification words it, fails on a company that starts
    with two ["@"]: the code strips both. *)
Lemma clean_company_name_single_at_counterexample :
  clean_company_name (JStr "@@a") = inr "A" /\
  company_as_specified (Some "@@a") = "@A" /\
  clean_company_name (JStr "@@a") <> inr (company_as_specified (Some "@@a")).
Proof.
  repeat split; try reflexivity.
  vm_compute. intros H. discriminate H.
Qed.

End Clean_company_name.

(** ** [_make_request] *)

Section Make_request.

Import Py GitHubScraper Words.

Variable rq : request.

Lemma request_loop_hits (hits rest : list exchange) (done : list event) :
  Forall rate_limit_hit hits ->
  request_loop rq (hits ++ rest) done = request_loop rq rest (done ++ waits rq hits).
Proof.
  intros Hhits. revert done.
  induction Hhits as [|x hits (Hst & Hhdr & Hfloat & Hsleep) _ IH];
    intros done.
  - cbn. now rewrite app_nil_r.
  - cbn [app request_loop]. rewrite Hst. cbn [Z.eqb Pos.eqb].
    assert (Hreset : reset_time (rate_limit_reset (reply x)) = inr (reset_epoch x)).
    { unfold reset_epoch. revert Hhdr.
      destruct (rate_limit_reset (reply x)); cbn; congruence. }
    rewrite Hreset. unfold sleep_time. rewrite Hfloat, Hsleep. cbn [orb].
    rewrite IH. f_equal. cbn [waits flat_map app].
    now rewrite <- !app_assoc.
Qed.

Lemma request_loop_ok (x : exchange) (body : json) (rest : list exchange)
      (done : list event) :
  status_code (reply x) = 200 -> json_body (reply x) = Some body ->
  request_loop rq (x :: rest) done =
  (Ok body, {| incoming := rest; trace := done ++ [Get rq] |}).
Proof. intros Hst Hbody. cbn. now rewrite Hst, Hbody. Qed.

(** An error status, 400 to 599 and not 403, ends the request at once. *)
Lemma make_request_raises_on_error_status (x : exchange)
      (rest : list exchange) (tr : list event) :
  status_code (reply x) <> 403 ->
  400 <= status_code (reply x) < 600 ->
  _make_request rq {| incoming := x :: rest; trace := tr |} =
  (Raise (HTTPError (status_code (reply x)) (text (reply x))),
   {| incoming := rest; trace := tr ++ [Get rq] |}).
Proof.
  intros H403 Hrange. unfold _make_request. cbn.
  destruct (Z.eqb_spec (status_code (reply x)) 200); [lia|].
  destruct (Z.eqb_spec (status_code (reply x)) 403); [lia|].
  unfold raises_for_status.
  destruct (Z.leb_spec 400 (status_code (reply x))); [|lia].
  destruct (Z.ltb_spec (status_code (reply x)) 600); [|lia].
  reflexivity.
Qed.

(** Any other status outside 400 to 599 is logged and the request is sent
    again at once. *)
Lemma make_request_retries_on_other_status (x : exchange)
      (rest : list exchange) (tr : list event) :
  status_code (reply x) <> 200 ->
  status_code (reply x) <> 403 ->
  ~ 400 <= status_code (reply x) < 600 ->
  _make_request rq {| incoming := x :: rest; trace := tr |} =
  _make_request rq {| incoming := rest; trace := tr ++ [Get rq] |}.
Proof.
  intros H200 H403 Hrange. unfold _make_request. cbn.
  destruct (Z.eqb_spec (status_code (reply x)) 200); [lia|].
  destruct (Z.eqb_spec (status_code (reply x)) 403); [lia|].
  unfold raises_for_status.
  destruct (Z.leb_spec 400 (status_code (reply x)));
    destruct (Z.ltb_spec (status_code (reply x)) 600); cbn; try reflexivity.
  lia.
Qed.


End Make_request.



(** C3 fails on a status such as 204: [raise_for_status] raises nothing
    below 400, so the loop sends the request again and the caller gets the
    body of a later answer instead of a failure. *)
Theorem make_request_retries_on_204 :
  let rq := SearchUsersPage "Seattle" 200 1 in
  _make_request rq
    {| incoming := [Words.answer 204 NoResetHeader None 0;
                    Words.answer 304 NoResetHeader None 0;
                    Words.ok_answer (JStr "late")];
       trace := [] |} =
  (Ok (JStr "late"), {| incoming := []; trace := [Get rq; Get rq; Get rq] |}).
Proof. reflexivity. Qed.

(** ** The collector only moves forward *)

Section Steady.

Import Py GitHubScraper Words.

Variable P : request -> Prop.

Lemma steady_refl (w : world) :
  (exists tl, trace w = trace w ++ tl /\ Forall (only P) tl) /\
  (exists used, incoming w = used ++ incoming w).
Proof.
  split; [exists [] | exists []]; [|reflexivity].
  now rewrite app_nil_r.
Qed.

Lemma steady_ret {A : Type} (a : A) : steady P (ret a).
Proof. intros w r w' H. injection H as <- <-. apply steady_refl. Qed.

Lemma steady_raise {A : Type} (e : exn) : steady P (@raise A e).
Proof. intros w r w' H. injection H as <- <-. apply steady_refl. Qed.

Lemma steady_lift {A : Type} (x : exn + A) : steady P (lift x).
Proof. destruct x; [apply steady_raise | apply steady_ret]. Qed.

Lemma steady_step (w1 w2 w3 : world) :
  (exists tl, trace w2 = trace w1 ++ tl /\ Forall (only P) tl) /\
  (exists used, incoming w1 = used ++ incoming w2) ->
  (exists tl, trace w3 = trace w2 ++ tl /\ Forall (only P) tl) /\
  (exists used, incoming w2 = used ++ incoming w3) ->
  (exists tl, trace w3 = trace w1 ++ tl /\ Forall (only P) tl) /\
  (exists used, incoming w1 = used ++ incoming w3).
Proof.
  intros [(t1 & H1 & F1) (u1 & L1)] [(t2 & H2 & F2) (u2 & L2)]. split.
  - exists (t1 ++ t2). split.
    + now rewrite H2, H1, app_assoc.
    + apply Forall_app. now split.
  - exists (u1 ++ u2). now rewrite L1, L2, app_assoc.
Qed.

Lemma steady_bind {A B : Type} (m : M A) (k : A -> M B) :
  steady P m -> (forall a, steady P (k a)) -> steady P (bind m k).
Proof.
  intros Hm Hk w r w' H. unfold bind in H.
  destruct (m w) as [[a|e|] w1] eqn:E.
  - exact (steady_step _ _ _ (Hm _ _ _ E) (Hk _ _ _ _ H)).
  - injection H as <- <-. exact (Hm _ _ _ E).
  - injection H as <- <-. exact (Hm _ _ _ E).
Qed.

Lemma steady_length {A : Type} (m : M A) (w : world) r w' :
  steady P m -> m w = (r, w') ->
  (length (incoming w') <= length (incoming w))%nat.
Proof.
  intros Hm H. destruct (Hm _ _ _ H) as [_ (used & ->)].
  rewrite length_app. lia.
Qed.

(** One call of [_make_request]: the request is the first thing added to
    the trace, nothing but that request and sleeps is added, and a body that
    comes back is the body of one of the answers taken, the last. *)
Lemma request_loop_progress (rq : request) (answers : list exchange) :
  forall done r w',
    request_loop rq answers done = (r, w') ->
    (exists tl, trace w' = done ++ Get rq :: tl /\ Forall (only (eq rq)) tl) /\
    (exists used, answers = used ++ incoming w') /\
    (forall body, r = Ok body ->
       exists used x, answers = used ++ x :: incoming w' /\
                      json_body (reply x) = Some body).
Proof.
  induction answers as [|x rest IH]; intros done r w' H.
  - cbn in H. injection H as <- <-. cbn. repeat split; eauto.
    + now exists [].
    + discriminate.
  - cbn [request_loop] in H.
    assert (Hgrow : forall mid r w',
               Forall (only (eq rq)) mid ->
               request_loop rq rest (done ++ [Get rq] ++ mid) = (r, w') ->
               (exists tl, trace w' = done ++ Get rq :: tl /\
                           Forall (only (eq rq)) tl) /\
               (exists used, x :: rest = used ++ incoming w') /\
               (forall body, r = Ok body ->
                  exists used y, x :: rest = used ++ y :: incoming w' /\
                                 json_body (reply y) = Some body)).
    { intros mid r0 w0 Hmid H0. apply IH in H0.
      destruct H0 as ((tl & Htl & Ftl) & (used & Hused) & Hbody).
      repeat split.
      - exists (mid ++ Get rq :: tl). split.
        + rewrite Htl. now rewrite <- !app_assoc.
        + apply Forall_app. split; [assumption|]. now constructor.
      - exists (x :: used). now rewrite Hused.
      - intros body Hr. destruct (Hbody body Hr) as (used' & y & Hy & Hj).
        exists (x :: used'), y. now rewrite Hy. }
    assert (Hstop : forall r0,
               (forall body, r0 = Ok body -> json_body (reply x) = Some body) ->
               (r0, {| incoming := rest; trace := done ++ [Get rq] |}) = (r, w') ->
               (exists tl, trace w' = done ++ Get rq :: tl /\
                           Forall (only (eq rq)) tl) /\
               (exists used, x :: rest = used ++ incoming w') /\
               (forall body, r = Ok body ->
                  exists used y, x :: rest = used ++ y :: incoming w' /\
                                 json_body (reply y) = Some body)).
    { intros r0 Hr0 H0. injection H0 as <- <-. cbn. repeat split.
      - now exists [].
      - now exists [x].
      - intros body Hb. exists [], x. split; [reflexivity | now apply Hr0]. }
    destruct (status_code (reply x) =? 200).
    { destruct (json_body (reply x)); apply (fun F => Hstop _ F H);
        congruence. }
    destruct (status_code (reply x) =? 403).
    { destruct (reset_time (rate_limit_reset (reply x))) as [e|reset].
      - apply (fun F => Hstop _ F H). discriminate.
      - destruct (float_overflows reset
                  || sleep_overflows (sleep_time reset (clock x))).
        + apply (fun F => Hstop _ F H). discriminate.
        + rewrite <- app_assoc in H.
          apply (fun F => Hgrow _ _ _ F H). now repeat constructor. }
    destruct (raises_for_status (status_code (reply x))).
    { apply (fun F => Hstop _ F H). discriminate. }
    apply (Hgrow []); [constructor|]. now rewrite app_nil_r.
Qed.

Lemma make_request_first_event (rq : request) (w : world) r w' :
  _make_request rq w = (r, w') ->
  exists tl, trace w' = trace w ++ Get rq :: tl.
Proof.
  intros H. apply request_loop_progress in H.
  destruct H as ((tl & Htl & _) & _). eauto.
Qed.

Lemma make_request_body (rq : request) (w : world) body w' :
  _make_request rq w = (Ok body, w') ->
  exists used x, incoming w = used ++ x :: incoming w' /\
                 json_body (reply x) = Some body.
Proof.
  intros H. apply request_loop_progress in H.
  destruct H as (_ & _ & Hbody). now apply Hbody.
Qed.

Lemma make_request_takes_an_answer (rq : request) (w : world) body w' :
  _make_request rq w = (Ok body, w') ->
  (length (incoming w') < length (incoming w))%nat.
Proof.
  intros H. apply make_request_body in H. destruct H as (used & x & -> & _).
  rewrite length_app. cbn. lia.
Qed.

Lemma steady_make_request (rq : request) :
  P rq -> steady P (_make_request rq).
Proof.
  intros HP w r w' H. apply request_loop_progress in H.
  destruct H as ((tl & Htl & Ftl) & Hused & _). split; [|exact Hused].
  exists (Get rq :: tl). split; [exact Htl|].
  constructor; [exact HP|].
  eapply Forall_impl; [|exact Ftl].
  intros [rq'|s]; cbn; [intros <-; exact HP | trivial].
Qed.

Lemma lift_world {A : Type} (x : exn + A) (w : world) r w' :
  lift x w = (r, w') -> w' = w.
Proof. destruct x; cbn; intros H; now injection H as _ <-. Qed.

Lemma steady_each_user (items : list json) :
  (forall url, P (UserProfile url)) ->
  forall users, steady P (each_user items users).
Proof.
  intros HP. induction items as [|user rest IH]; intros users; cbn [each_user].
  - apply steady_ret.
  - apply steady_bind; [apply steady_lift | intros url].
    apply steady_bind; [now apply steady_make_request | intros user_data].
    apply steady_bind; [apply steady_lift | intros cleaned].
    apply IH.
Qed.

Lemma steady_search_loop (loc : string) (min_followers : Z) :
  (forall url, P (UserProfile url)) ->
  (forall page, P (SearchUsersPage loc min_followers page)) ->
  forall fuel page users,
    steady P (search_loop fuel loc min_followers page users).
Proof.
  intros HP1 HP2. induction fuel as [|fuel IH]; intros page users;
    cbn [search_loop].
  - intros w r w' H. injection H as <- <-. apply steady_refl.
  - apply steady_bind; [now apply steady_make_request | intros response].
    apply steady_bind; [apply steady_lift | intros items].
    destruct (negb (truthy items)); [apply steady_ret|].
    destruct items; try apply steady_raise.
    apply steady_bind; [now apply steady_each_user | intros users'].
    apply IH.
Qed.

Lemma steady_search_users (loc : string) (min_followers : Z) :
  (forall url, P (UserProfile url)) ->
  (forall page, P (SearchUsersPage loc min_followers page)) ->
  steady P (search_users loc min_followers).
Proof.
  intros HP1 HP2 w r w' H. unfold search_users in H.
  now apply steady_search_loop in H.
Qed.

Lemma steady_repos_loop (username : json) (max_repos : Z) :
  (forall page, P (UserReposPage username page)) ->
  forall fuel page repos,
    steady P (repos_loop fuel username max_repos page repos).
Proof.
  intros HP. induction fuel as [|fuel IH]; intros page repos;
    cbn [repos_loop];
    (destruct (Z.of_nat (length repos) <? max_repos); [|apply steady_ret]).
  - intros w r w' H. injection H as <- <-. apply steady_refl.
  - apply steady_bind; [now apply steady_make_request | intros response].
    destruct (negb (truthy response)); [apply steady_ret|].
    destruct response; try apply steady_raise.
    apply steady_bind; [apply steady_lift | intros repos'].
    destruct (Z.of_nat (length items) <? 100); [apply steady_ret | apply IH].
Qed.

Lemma steady_get_user_repositories (username : json) (max_repos : Z) :
  (forall page, P (UserReposPage username page)) ->
  steady P (get_user_repositories username max_repos).
Proof.
  intros HP w r w' H. unfold get_user_repositories in H. revert H.
  apply steady_bind; [now apply steady_repos_loop | intros; apply steady_ret].
Qed.

End Steady.

(** ** Fuel *)

Section Fuel.

Import Py GitHubScraper Words.

(** The turns of [search_users] are bounded by the answers to come: any
    two amounts of fuel above their number give the same run. *)
Lemma search_loop_fuel (loc : string) (min_followers : Z) :
  forall fuel1 fuel2 page users w,
    (length (incoming w) < fuel1)%nat ->
    (length (incoming w) < fuel2)%nat ->
    search_loop fuel1 loc min_followers page users w =
    search_loop fuel2 loc min_followers page users w.
Proof.
  induction fuel1 as [|fuel1 IH]; intros [|fuel2] page users w H1 H2; try lia.
  cbn [search_loop]. unfold bind.
  destruct (_make_request _ w) as [[response|e|] w1] eqn:E; try reflexivity.
  apply make_request_takes_an_answer in E.
  destruct (lift (getitem response "items") w1) as [[items|e|] w2] eqn:E2;
    try reflexivity.
  apply lift_world in E2. subst w2.
  destruct (negb (truthy items)); [reflexivity|].
  destruct items; try reflexivity.
  destruct (each_user items users w1) as [[users'|e|] w2] eqn:E3;
    try reflexivity.
  apply (steady_length (fun _ => True)) in E3;
    [|now apply steady_each_user].
  apply IH; lia.
Qed.

Lemma repos_loop_fuel (username : json) (max_repos : Z) :
  forall fuel1 fuel2 page repos w,
    (length (incoming w) < fuel1)%nat ->
    (length (incoming w) < fuel2)%nat ->
    repos_loop fuel1 username max_repos page repos w =
    repos_loop fuel2 username max_repos page repos w.
Proof.
  induction fuel1 as [|fuel1 IH]; intros [|fuel2] page repos w H1 H2; try lia.
  cbn [repos_loop].
  destruct (Z.of_nat (length repos) <? max_repos); [|reflexivity].
  unfold bind.
  destruct (_make_request _ w) as [[response|e|] w1] eqn:E; try reflexivity.
  apply make_request_takes_an_answer in E.
  destruct (negb (truthy response)); [reflexivity|].
  destruct response; try reflexivity.
  destruct (lift (each_repo username items repos) w1) as [[repos'|e|] w2] eqn:E2;
    try reflexivity.
  apply lift_world in E2. subst w2.
  destruct (Z.of_nat (length items) <? 100); [reflexivity|].
  apply IH; lia.
Qed.

End Fuel.

(** ** [get_user_repositories] *)

Section Repositories.

Import Py GitHubScraper Words.

Ltac ebind_inv H :=
  repeat match type of H with
         | ebind ?x _ = inr _ =>
             let E := fresh "E" in
             destruct x eqn:E; cbn [ebind] in H; [discriminate H|]
         end.

Lemma repo_data_login (username repo : json) (data : repo_record) :
  repo_data username repo = inr data -> repo_login data = username.
Proof.
  unfold repo_data. intros H. ebind_inv H. now injection H as <-.
Qed.

Lemma each_repo_logins (username : json) (response : list json) :
  forall repos repos',
    each_repo username response repos = inr repos' ->
    Forall (fun data => repo_login data = username) repos ->
    Forall (fun data => repo_login data = username) repos'.
Proof.
  induction response as [|repo rest IH]; intros repos repos' H Hrepos;
    cbn [each_repo] in H.
  - now injection H as <-.
  - destruct (repo_data username repo) as [e|data] eqn:E; cbn [ebind] in H;
      [discriminate H|].
    apply (IH _ _ H). apply Forall_app. split; [assumption|].
    constructor; [|constructor]. exact (repo_data_login _ _ _ E).
Qed.

Lemma repos_loop_logins (username : json) (max_repos : Z) :
  forall fuel page repos w r w',
    repos_loop fuel username max_repos page repos w = (Ok r, w') ->
    Forall (fun data => repo_login data = username) repos ->
    Forall (fun data => repo_login data = username) r.
Proof.
  induction fuel as [|fuel IH]; intros page repos w r w' H Hrepos;
    cbn [repos_loop] in H;
    (destruct (Z.of_nat (length repos) <? max_repos);
     [|now injection H as <- _]).
  - discriminate H.
  - unfold bind in H.
    destruct (_make_request _ w) as [[response|e|] w1]; try discriminate H.
    destruct (negb (truthy response)); [now injection H as <- _|].
    destruct response; try discriminate H.
    destruct (each_repo username items repos) as [e|repos'] eqn:E;
      cbn [lift raise ret] in H; [discriminate H|].
    pose proof (each_repo_logins _ _ _ _ E Hrepos) as Hrepos'.
    destruct (Z.of_nat (length items) <? 100); [now injection H as <- _|].
    exact (IH _ _ _ _ _ H Hrepos').
Qed.

Lemma repos_loop_cap_reached (username : json) (max_repos : Z) :
  forall fuel page repos w,
    max_repos <= Z.of_nat (length repos) ->
    repos_loop fuel username max_repos page repos w = (Ok repos, w).
Proof.
  intros fuel page repos w H.
  assert (Hc : (Z.of_nat (length repos) <? max_repos) = false)
    by (apply Z.ltb_ge; exact H).
  destruct fuel; cbn [repos_loop]; now rewrite Hc.
Qed.

Lemma get_user_repositories_inv (username : json) (max_repos : Z) w r w' :
  get_user_repositories username max_repos w = (Ok r, w') ->
  exists repos,
    repos_loop (S (length (incoming w))) username max_repos 1 [] w =
    (Ok repos, w') /\
    r = slice_to repos max_repos.
Proof.
  unfold get_user_repositories, bind. intros H.
  destruct (repos_loop _ _ _ _ _ w) as [[repos|e|] w1]; try discriminate H.
  injection H as <- <-. eauto.
Qed.

Lemma Forall_slice_to {A : Type} (Q : A -> Prop) (l : list A) (n : Z) :
  Forall Q l -> Forall Q (slice_to l n).
Proof.
  intros H. unfold slice_to.
  destruct (0 <=? n);
    match goal with
    | |- Forall _ (firstn ?k l) =>
        rewrite <- (firstn_skipn k l) in H; apply Forall_app in H; apply H
    end.
Qed.

Lemma get_user_repositories_skips_loop (username : json) (max_repos : Z)
      (w : world) :
  max_repos <= 0 ->
  get_user_repositories username max_repos w = (Ok [], w).
Proof.
  intros H. unfold get_user_repositories, bind.
  rewrite repos_loop_cap_reached by (cbn; lia).
  unfold ret, slice_to. destruct (0 <=? max_repos); now rewrite firstn_nil.
Qed.

(** C10: with [max_repos <= 0] the loop body never runs, so the world is
    left as it was, no request added to the trace and no answer taken, and
    the result is the empty list. *)
Theorem get_user_repositories_no_request (username : json) (max_repos : Z)
        (w : world) :
  max_repos <= 0 ->
  get_user_repositories username max_repos w = (Ok [], w) /\
  trace (snd (get_user_repositories username max_repos w)) = trace w /\
  incoming (snd (get_user_repositories username max_repos w)) = incoming w.
Proof.
  intros H. rewrite get_user_repositories_skips_loop by assumption.
  repeat split.
Qed.

(** C4: what [get_user_repositories] returns is the first [max_repos]
    records of those its loop gathered from the pages: at most [max_repos]
    of them, and exactly [max_repos] as soon as the pages gave that many,
    the last page overshooting or not.  (A negative cap gives no record.) *)
Theorem get_user_repositories_at_most_max_repos (username : json)
        (max_repos : Z) (w : world) (r : list repo_record) (w' : world) :
  get_user_repositories username max_repos w = (Ok r, w') ->
  exists repos,
    repos_loop (S (length (incoming w))) username max_repos 1 [] w =
    (Ok repos, w') /\
    r = firstn (Z.to_nat max_repos) repos /\
    (0 <= max_repos -> Z.of_nat (length r) <= max_repos) /\
    (0 <= max_repos <= Z.of_nat (length repos) ->
     Z.of_nat (length r) = max_repos) /\
    (max_repos < 0 -> r = []).
Proof.
  intros H. destruct (Z.le_gt_cases max_repos 0) as [Hneg | Hpos].
  - rewrite get_user_repositories_skips_loop in H by assumption.
    injection H as <- <-. exists [].
    rewrite repos_loop_cap_reached by (cbn; lia).
    rewrite firstn_nil. cbn. repeat split; lia.
  - apply get_user_repositories_inv in H. destruct H as (repos & Hloop & ->).
    exists repos. unfold slice_to.
    destruct (Z.leb_spec 0 max_repos); [|lia].
    repeat split; [assumption | | |]; try rewrite length_firstn; lia.
Qed.

End Repositories.

(** C10, with a cap of zero and an answer waiting. *)
Lemma get_user_repositories_no_request_witness :
  let w := {| incoming := [Words.ok_answer (JArr [Words.sample_repo "u/a"])];
              trace := [] |} in
  get_user_repositories (JStr "u") 0 w = (Ok [], w) /\
  trace (snd (get_user_repositories (JStr "u") 0 w)) = trace w /\
  incoming (snd (get_user_repositories (JStr "u") 0 w)) = incoming w.
Proof.
  intros w. apply (get_user_repositories_no_request (JStr "u") 0 w). lia.
Defined.

(** C4, on a page of three repositories under a cap of two. *)
Lemma get_user_repositories_at_most_max_repos_witness :
  let page := [Words.sample_repo "u/a"; Words.sample_repo "u/b";
               Words.sample_repo "u/c"] in
  let w := {| incoming := [Words.ok_answer (JArr page)]; trace := [] |} in
  let w' := {| incoming := []; trace := [Get (UserReposPage (JStr "u") 1)] |} in
  let r := [Words.sample_repo_record "u" "u/a";
            Words.sample_repo_record "u" "u/b"] in
  get_user_repositories (JStr "u") 2 w = (Ok r, w') /\
  exists repos,
    repos_loop 2 (JStr "u") 2 1 [] w = (Ok repos, w') /\
    r = firstn 2 repos /\
    (0 <= 2 -> Z.of_nat (length r) <= 2) /\
    (0 <= 2 <= Z.of_nat (length repos) -> Z.of_nat (length r) = 2) /\
    (2 < 0 -> r = []).
Proof.
  intros page w w' r. split; [reflexivity|].
  apply (get_user_repositories_at_most_max_repos (JStr "u") 2 w r w').
  reflexivity.
Defined.

(** ** [search_users] *)

Section Users.

Import Py GitHubScraper Words.

Ltac ebind_inv H :=
  repeat match type of H with
         | ebind ?x _ = inr _ =>
             let E := fresh "E" in
             destruct x eqn:E; cbn [ebind] in H; [discriminate H|]
         end.

Lemma item_or_empty_null (d : json) (k : string) (v : json) :
  item_or_empty d k = inr v -> getitem d k = inr JNull -> v = JStr "".
Proof.
  unfold item_or_empty. intros H Hnull. rewrite Hnull in H. cbn in H.
  now injection H as <-.
Qed.

Lemma item_or_false_null (d : json) (k : string) (v : json) :
  item_or_false d k = inr v -> getitem d k = inr JNull -> v = JBool false.
Proof.
  unfold item_or_false. intros H Hnull. rewrite Hnull in H. cbn in H.
  now injection H as <-.
Qed.

Lemma cleaned_data_null_defaults (user_data : json) (u : user_record) :
  cleaned_data user_data = inr u ->
  (getitem user_data "name" = inr JNull -> name u = JStr "") /\
  (getitem user_data "location" = inr JNull -> location u = JStr "") /\
  (getitem user_data "email" = inr JNull -> email u = JStr "") /\
  (getitem user_data "bio" = inr JNull -> bio u = JStr "") /\
  (getitem user_data "hireable" = inr JNull -> hireable u = JBool false).
Proof.
  unfold cleaned_data. intros H. ebind_inv H. injection H as <-.
  cbn [name location email bio hireable].
  repeat split; intros Hnull;
    eauto using item_or_empty_null, item_or_false_null.
Qed.

Lemma item_or_empty_total (d : json) (k : string) (v : json) :
  getitem d k = inr v -> exists v', item_or_empty d k = inr v'.
Proof.
  unfold item_or_empty. intros ->. cbn. destruct (truthy v); eauto.
Qed.

Lemma item_or_false_total (d : json) (k : string) (v : json) :
  getitem d k = inr v -> exists v', item_or_false d k = inr v'.
Proof.
  unfold item_or_false. intros ->. cbn. destruct v; eauto.
Qed.

(** A profile that has the indexed keys, whatever their values, and whose
    company is absent, null or a string, always gives a record. *)
Lemma cleaned_data_total (fields : list (string * json)) :
  (forall k, In k indexed_keys -> exists v, getitem (JObj fields) k = inr v) ->
  (forall c, assoc "company" fields = Some c -> c = JNull \/ exists s, c = JStr s) ->
  exists u, cleaned_data (JObj fields) = inr u.
Proof.
  intros Hkeys Hcompany.
  assert (Hc : exists c, get (JObj fields) "company" = inr c /\
                         exists s, clean_company_name c = inr s).
  { cbn [get]. destruct (assoc "company" fields) as [c|] eqn:E.
    - exists c. split; [reflexivity|].
      destruct (Hcompany c eq_refl) as [-> | [s ->]]; [now exists ""|].
      rewrite clean_company_name_str. eauto.
    - exists JNull. split; [reflexivity | now exists ""]. }
  destruct Hc as (c & Hc & s & Hs).
  assert (Hidx : forall k, In k indexed_keys ->
                   (exists v, getitem (JObj fields) k = inr v) /\
                   (exists v, item_or_empty (JObj fields) k = inr v) /\
                   (exists v, item_or_false (JObj fields) k = inr v)).
  { intros k Hk. destruct (Hkeys k Hk) as [v E]. repeat split.
    - eauto.
    - exact (item_or_empty_total _ _ _ E).
    - exact (item_or_false_total _ _ _ E). }
  destruct (Hidx "login") as ([v1 E1] & _); [cbn; tauto|].
  destruct (Hidx "name") as (_ & [v2 E2] & _); [cbn; tauto|].
  destruct (Hidx "location") as (_ & [v3 E3] & _); [cbn; tauto|].
  destruct (Hidx "email") as (_ & [v4 E4] & _); [cbn; tauto|].
  destruct (Hidx "hireable") as (_ & _ & [v5 E5]); [cbn; tauto|].
  destruct (Hidx "bio") as (_ & [v6 E6] & _); [cbn; tauto|].
  destruct (Hidx "public_repos") as ([v7 E7] & _); [cbn; tauto|].
  destruct (Hidx "followers") as ([v8 E8] & _); [cbn; tauto|].
  destruct (Hidx "following") as ([v9 E9] & _); [cbn; tauto|].
  destruct (Hidx "created_at") as ([v10 E10] & _); [cbn; tauto|].
  unfold cleaned_data.
  rewrite E1; cbn [ebind]. rewrite E2; cbn [ebind].
  rewrite Hc; cbn [ebind]. rewrite Hs; cbn [ebind].
  rewrite E3; cbn [ebind]. rewrite E4; cbn [ebind].
  rewrite E5; cbn [ebind]. rewrite E6; cbn [ebind].
  rewrite E7; cbn [ebind]. rewrite E8; cbn [ebind].
  rewrite E9; cbn [ebind]. rewrite E10; cbn [ebind].
  eauto.
Qed.

Lemma each_user_cleaned_from (answers : list exchange) (items : list json) :
  forall users w users' w',
    each_user items users w = (Ok users', w') ->
    (forall x, In x (incoming w) -> In x answers) ->
    Forall (cleaned_from answers) users ->
    Forall (cleaned_from answers) users'.
Proof.
  induction items as [|user rest IH]; intros users w users' w' H Hsub Husers;
    cbn [each_user] in H.
  - now injection H as <- _.
  - unfold bind in H.
    destruct (getitem user "url") as [e|url]; cbn [lift raise ret] in H;
      [discriminate H|].
    destruct (_make_request (UserProfile url) w) as [[user_data|e|] w1] eqn:E;
      try discriminate H.
    destruct (cleaned_data user_data) as [e|cleaned] eqn:Ec;
      cbn [lift raise ret] in H; [discriminate H|].
    apply make_request_body in E. destruct E as (used & x & Hw & Hbody).
    apply (IH _ _ _ _ H).
    + intros y Hy. apply Hsub. rewrite Hw. apply in_or_app. right. now right.
    + apply Forall_app. split; [assumption|]. constructor; [|constructor].
      exists user_data. split; [|assumption].
      exists x. split; [|assumption].
      apply Hsub. rewrite Hw. apply in_or_app. right. now left.
Qed.

Lemma search_loop_cleaned_from (answers : list exchange) (loc : string)
      (min_followers : Z) :
  forall fuel page users w users' w',
    search_loop fuel loc min_followers page users w = (Ok users', w') ->
    (forall x, In x (incoming w) -> In x answers) ->
    Forall (cleaned_from answers) users ->
    Forall (cleaned_from answers) users'.
Proof.
  induction fuel as [|fuel IH]; intros page users w users' w' H Hsub Husers;
    cbn [search_loop] in H; [discriminate H|].
  unfold bind in H.
  destruct (_make_request _ w) as [[response|e|] w1] eqn:E; try discriminate H.
  apply (steady_make_request (fun _ => True)) in E; [|trivial].
  destruct E as (_ & used1 & Hw1).
  destruct (getitem response "items") as [e|items]; cbn [lift raise ret] in H;
    [discriminate H|].
  destruct (negb (truthy items)); [now injection H as <- _|].
  destruct items; try discriminate H.
  destruct (each_user items users w1) as [[users1|e|] w2] eqn:E2;
    try discriminate H.
  assert (Hsub1 : forall x, In x (incoming w1) -> In x answers).
  { intros y Hy. apply Hsub. rewrite Hw1. apply in_or_app. now right. }
  pose proof (each_user_cleaned_from _ _ _ _ _ _ E2 Hsub1 Husers) as Husers1.
  apply (steady_each_user (fun _ => True)) in E2; [|trivial].
  destruct E2 as (_ & used2 & Hw2).
  apply (IH _ _ _ _ _ H); [|assumption].
  intros y Hy. apply Hsub1. rewrite Hw2. apply in_or_app. now right.
Qed.

(** What the code does default: every record [search_users] returns is
    made from a profile the server sent, in which a null name, location,
    email or bio has become the empty string and a null hireable has become
    false; and a profile that has the indexed keys, null or not, does give a
    record. *)
Lemma search_users_null_fields_default :
  (forall loc min_followers w users w' u,
      search_users loc min_followers w = (Ok users, w') ->
      In u users ->
      exists user_data,
        fetched (incoming w) user_data /\
        cleaned_data user_data = inr u /\
        (getitem user_data "name" = inr JNull -> name u = JStr "") /\
        (getitem user_data "location" = inr JNull -> location u = JStr "") /\
        (getitem user_data "email" = inr JNull -> email u = JStr "") /\
        (getitem user_data "bio" = inr JNull -> bio u = JStr "") /\
        (getitem user_data "hireable" = inr JNull ->
         hireable u = JBool false)) /\
  (forall fields,
      (forall k, In k indexed_keys ->
                 exists v, getitem (JObj fields) k = inr v) ->
      (forall c, assoc "company" fields = Some c ->
                 c = JNull \/ exists s, c = JStr s) ->
      exists u, cleaned_data (JObj fields) = inr u).
Proof.
  split; [|exact cleaned_data_total].
  intros loc min_followers w users w' u H Hu.
  unfold search_users in H.
  eapply search_loop_cleaned_from with (answers := incoming w) in H;
    [|trivial|constructor].
  rewrite Forall_forall in H. destruct (H u Hu) as (user_data & Hf & Hc).
  exists user_data. split; [assumption|]. split; [assumption|].
  now apply cleaned_data_null_defaults.
Qed.

End Users.

(** On a search with one hit whose profile has only null optional
    fields. *)
Lemma search_users_null_fields_default_witness :
  let w := {| incoming := [Words.ok_answer (Words.search_page ["https://api.github.com/users/a"]);
                           Words.ok_answer (Words.sample_profile "a");
                           Words.ok_answer (Words.search_page [])];
              trace := [] |} in
  let u := Words.sample_user_record "a" in
  exists user_data,
    Words.fetched (incoming w) user_data /\
    cleaned_data user_data = inr u /\
    (Py.getitem user_data "name" = inr JNull -> name u = JStr "") /\
    (Py.getitem user_data "location" = inr JNull -> location u = JStr "") /\
    (Py.getitem user_data "email" = inr JNull -> email u = JStr "") /\
    (Py.getitem user_data "bio" = inr JNull -> bio u = JStr "") /\
    (Py.getitem user_data "hireable" = inr JNull -> hireable u = JBool false).
Proof.
  intros w u.
  apply (proj1 search_users_null_fields_default "Seattle" 200 w [u]
               {| incoming := [];
                  trace := [Get (SearchUsersPage "Seattle" 200 1);
                            Get (UserProfile (JStr "https://api.github.com/users/a"));
                            Get (SearchUsersPage "Seattle" 200 2)] |} u).
  - reflexivity.
  - simpl. left. reflexivity.
Defined.

(** C6 fails on a profile in which a key is missing.  The fields are read
    by indexing, [user_data['name']], where the company next to them is read
    with [user_data.get('company')]: on a profile without the name, or
    without hireable, indexing raises [KeyError], the search ends there
    after the request for the profile, and no record is made, with the empty
    string, [False] or otherwise. *)
Theorem search_users_raises_on_missing_field :
  let run profile :=
    search_users "Seattle" 200
      {| incoming := [Words.ok_answer (Words.search_page ["https://api.github.com/users/a"]);
                      Words.ok_answer profile;
                      Words.ok_answer (Words.search_page [])];
         trace := [] |} in
  let no_name := Words.sample_profile_without "name" "a" in
  let no_hireable := Words.sample_profile_without "hireable" "a" in
  let stopped :=
    {| incoming := [Words.ok_answer (Words.search_page [])];
       trace := [Get (SearchUsersPage "Seattle" 200 1);
                 Get (UserProfile (JStr "https://api.github.com/users/a"))] |} in
  Py.getitem no_name "name" = inl (KeyError "name") /\
  run no_name = (Raise (KeyError "name"), stopped) /\
  (forall u, cleaned_data no_name <> inr u) /\
  Py.getitem no_hireable "hireable" = inl (KeyError "hireable") /\
  run no_hireable = (Raise (KeyError "hireable"), stopped) /\
  (forall u, cleaned_data no_hireable <> inr u).
Proof.
  repeat split; try reflexivity; intros u H; vm_compute in H; discriminate H.
Qed.

(** ** The pagination loops *)

Section Pagination.

Import Py GitHubScraper Words.

Lemma first_event_bind {A B : Type} (m : M A) (k : A -> M B) (e : event)
      (w : world) :
  (forall r w1, m w = (r, w1) -> exists tl, trace w1 = trace w ++ e :: tl) ->
  (forall a, steady (fun _ => True) (k a)) ->
  forall r w', bind m k w = (r, w') ->
               exists tl, trace w' = trace w ++ e :: tl.
Proof.
  intros Hm Hk r w' H. unfold bind in H.
  destruct (m w) as [[a|e'|] w1] eqn:E;
    destruct (Hm _ _ eq_refl) as [tl Htl].
  - apply Hk in H. destruct H as [(tl2 & H2 & _) _].
    exists (tl ++ tl2). rewrite H2, Htl, <- app_assoc. reflexivity.
  - injection H as <- <-. eauto.
  - injection H as <- <-. eauto.
Qed.

Lemma search_loop_first_page (loc : string) (min_followers : Z) (fuel : nat)
      (page : Z) (users : list user_record) (w : world) r w' :
  search_loop (S fuel) loc min_followers page users w = (r, w') ->
  exists tl, trace w' = trace w ++ Get (SearchUsersPage loc min_followers page) :: tl.
Proof.
  cbn [search_loop]. apply first_event_bind.
  - intros r1 w1. apply make_request_first_event.
  - intros response.
    apply steady_bind; [apply steady_lift | intros items].
    destruct (negb (truthy items)); [apply steady_ret|].
    destruct items; try apply steady_raise.
    apply steady_bind; [now apply steady_each_user | intros users'].
    now apply steady_search_loop.
Qed.

Lemma repos_loop_first_page (username : json) (max_repos : Z) (fuel : nat)
      (page : Z) (repos : list repo_record) (w : world) r w' :
  Z.of_nat (length repos) < max_repos ->
  repos_loop (S fuel) username max_repos page repos w = (r, w') ->
  exists tl, trace w' = trace w ++ Get (UserReposPage username page) :: tl.
Proof.
  intros Hcap. cbn [repos_loop].
  destruct (Z.ltb_spec (Z.of_nat (length repos)) max_repos); [|lia].
  apply first_event_bind.
  - intros r1 w1. apply make_request_first_event.
  - intros response.
    destruct (negb (truthy response)); [apply steady_ret|].
    destruct response; try apply steady_raise.
    apply steady_bind; [apply steady_lift | intros repos'].
    destruct (Z.of_nat (length items) <? 100); [apply steady_ret|].
    now apply steady_repos_loop.
Qed.

Lemma repos_loop_short_page (username : json) (max_repos : Z) (fuel : nat)
      (page : Z) (repos : list repo_record) (x : exchange)
      (rest : list exchange) (tr : list event) (items : list json)
      (repos' : list repo_record) :
  Z.of_nat (length repos) < max_repos ->
  status_code (reply x) = 200 ->
  json_body (reply x) = Some (JArr items) ->
  (length items < 100)%nat ->
  each_repo username items repos = inr repos' ->
  repos_loop (S fuel) username max_repos page repos
             {| incoming := x :: rest; trace := tr |} =
  (Ok repos',
   {| incoming := rest; trace := tr ++ [Get (UserReposPage username page)] |}).
Proof.
  intros Hcap Hst Hbody Hshort Hrecords. cbn [repos_loop].
  destruct (Z.ltb_spec (Z.of_nat (length repos)) max_repos); [|lia].
  unfold bind, _make_request. cbn [incoming trace].
  rewrite (request_loop_ok _ x (JArr items)) by assumption.
  destruct items as [|repo items].
  - cbn in Hrecords. injection Hrecords as <-. reflexivity.
  - cbn [truthy negb]. rewrite Hrecords. cbn [lift ret].
    destruct (Z.ltb_spec (Z.of_nat (length (repo :: items))) 100); [|lia].
    reflexivity.
Qed.

Lemma search_loop_empty_page (loc : string) (min_followers : Z) (fuel : nat)
      (page : Z) (users : list user_record) (x : exchange)
      (rest : list exchange) (tr : list event) (body : json) :
  status_code (reply x) = 200 ->
  json_body (reply x) = Some body ->
  getitem body "items" = inr (JArr []) ->
  search_loop (S fuel) loc min_followers page users
              {| incoming := x :: rest; trace := tr |} =
  (Ok users,
   {| incoming := rest;
      trace := tr ++ [Get (SearchUsersPage loc min_followers page)] |}).
Proof.
  intros Hst Hbody Hitems. cbn [search_loop].
  unfold bind, _make_request. cbn [incoming trace].
  rewrite (request_loop_ok _ x body) by assumption.
  rewrite Hitems. reflexivity.
Qed.

Lemma search_loop_next_page (loc : string) (min_followers : Z) (fuel : nat)
      (page : Z) (users : list user_record) (x : exchange)
      (rest : list exchange) (tr : list event) (body : json)
      (items : list json) (users' : list user_record) (w2 : world) :
  status_code (reply x) = 200 ->
  json_body (reply x) = Some body ->
  getitem body "items" = inr (JArr items) ->
  items <> [] ->
  each_user items users
            {| incoming := rest;
               trace := tr ++ [Get (SearchUsersPage loc min_followers page)] |} =
  (Ok users', w2) ->
  search_loop (S (S fuel)) loc min_followers page users
              {| incoming := x :: rest; trace := tr |} =
  search_loop (S fuel) loc min_followers (page + 1) users' w2 /\
  exists tl,
    trace (snd (search_loop (S fuel) loc min_followers (page + 1) users' w2)) =
    trace w2 ++ Get (SearchUsersPage loc min_followers (page + 1)) :: tl.
Proof.
  intros Hst Hbody Hitems Hne Hprofiles. split.
  - remember (S fuel) as fuel' eqn:Hf. cbn [search_loop].
    unfold bind, _make_request. cbn [incoming trace].
    rewrite (request_loop_ok _ x body) by assumption.
    rewrite Hitems. cbn [lift ret].
    destruct items as [|item items]; [congruence|].
    cbn [truthy negb]. now rewrite Hprofiles.
  - destruct (search_loop (S fuel) loc min_followers (page + 1) users' w2)
      as [r w'] eqn:E.
    exact (search_loop_first_page _ _ _ _ _ _ _ _ E).
Qed.

(** C5, as the code has it.  The repository loop ends at the first page
    with fewer than 100 items, empty or not, and requests a first page
    whenever [max_repos] is positive.  The search loop ends at the first
    empty page; after a page with items, however few, it requests the next
    page; and it always requests a first page. *)
Theorem pagination_loops_stop :
  (forall username max_repos fuel page repos x rest tr items repos',
      Z.of_nat (length repos) < max_repos ->
      status_code (reply x) = 200 ->
      json_body (reply x) = Some (JArr items) ->
      (length items < 100)%nat ->
      each_repo username items repos = inr repos' ->
      repos_loop (S fuel) username max_repos page repos
                 {| incoming := x :: rest; trace := tr |} =
      (Ok repos',
       {| incoming := rest;
          trace := tr ++ [Get (UserReposPage username page)] |})) /\
  (forall username max_repos w r w',
      0 < max_repos ->
      get_user_repositories username max_repos w = (r, w') ->
      exists tl, trace w' = trace w ++ Get (UserReposPage username 1) :: tl) /\
  (forall loc min_followers fuel page users x rest tr body,
      status_code (reply x) = 200 ->
      json_body (reply x) = Some body ->
      getitem body "items" = inr (JArr []) ->
      search_loop (S fuel) loc min_followers page users
                  {| incoming := x :: rest; trace := tr |} =
      (Ok users,
       {| incoming := rest;
          trace := tr ++ [Get (SearchUsersPage loc min_followers page)] |})) /\
  (forall loc min_followers fuel page users x rest tr body items users' w2,
      status_code (reply x) = 200 ->
      json_body (reply x) = Some body ->
      getitem body "items" = inr (JArr items) ->
      items <> [] ->
      each_user items users
                {| incoming := rest;
                   trace := tr ++ [Get (SearchUsersPage loc min_followers page)] |} =
      (Ok users', w2) ->
      search_loop (S (S fuel)) loc min_followers page users
                  {| incoming := x :: rest; trace := tr |} =
      search_loop (S fuel) loc min_followers (page + 1) users' w2 /\
      exists tl,
        trace (snd (search_loop (S fuel) loc min_followers (page + 1) users' w2)) =
        trace w2 ++ Get (SearchUsersPage loc min_followers (page + 1)) :: tl) /\
  (forall loc min_followers w r w',
      search_users loc min_followers w = (r, w') ->
      exists tl,
        trace w' = trace w ++ Get (SearchUsersPage loc min_followers 1) :: tl).
Proof.
  split; [|split; [|split; [|split]]].
  - intros. now apply repos_loop_short_page with (items := items).
  - intros username max_repos w r w' Hpos. unfold get_user_repositories.
    apply first_event_bind.
    + intros r1 w1. apply repos_loop_first_page. cbn. lia.
    + intros repos. apply steady_ret.
  - intros. now apply search_loop_empty_page with (body := body).
  - intros. now apply search_loop_next_page with (x := x) (body := body) (items := items).
  - intros loc min_followers w r w'. unfold search_users.
    apply search_loop_first_page.
Qed.

End Pagination.

(** C5, on a last page of two repositories, a positive cap, and an empty
    page of search results. *)
Lemma pagination_loops_stop_witness :
  let page := [Words.sample_repo "u/a"; Words.sample_repo "u/b"] in
  let records := [Words.sample_repo_record "u" "u/a";
                  Words.sample_repo_record "u" "u/b"] in
  let more := [Words.ok_answer (JArr page)] in
  (repos_loop 1 (JStr "u") 500 1 []
              {| incoming := Words.ok_answer (JArr page) :: more; trace := [] |} =
   (Ok records,
    {| incoming := more; trace := [] ++ [Get (UserReposPage (JStr "u") 1)] |})) /\
  (exists tl,
      trace {| incoming := []; trace := [Get (UserReposPage (JStr "u") 1)] |} =
      trace {| incoming := more; trace := [] |} ++
      Get (UserReposPage (JStr "u") 1) :: tl) /\
  (search_loop 1 "Seattle" 200 3 []
               {| incoming := Words.ok_answer (Words.search_page []) :: more;
                  trace := [] |} =
   (Ok [],
    {| incoming := more;
       trace := [] ++ [Get (SearchUsersPage "Seattle" 200 3)] |})).
Proof.
  intros page records more. split; [|split].
  - apply (proj1 pagination_loops_stop (JStr "u") 500 0%nat 1 []
                 (Words.ok_answer (JArr page)) more [] page records);
      try reflexivity; cbn; lia.
  - apply (proj1 (proj2 pagination_loops_stop) (JStr "u") 500
                 {| incoming := more; trace := [] |} (Ok records)).
    + lia.
    + reflexivity.
  - apply (proj1 (proj2 (proj2 pagination_loops_stop)) "Seattle" 200 0%nat 3 []
                 (Words.ok_answer (Words.search_page [])) more []
                 (Words.search_page [])); reflexivity.
Defined.

(** C5, as the specification words it, fails twice.  A first page of
    search results with one hit, fewer than 100, does not end the search
    loop: page 2 is requested as well.  And with [max_repos = 0] the
    repository loop requests no page at all. *)
Lemma pagination_counterexample :
  let hits := ["https://api.github.com/users/a"] in
  let w := {| incoming := [Words.ok_answer (Words.search_page hits);
                           Words.ok_answer (Words.sample_profile "a");
                           Words.ok_answer (Words.search_page [])];
              trace := [] |} in
  (length hits < 100)%nat /\
  search_users "Seattle" 200 w =
  (Ok [Words.sample_user_record "a"],
   {| incoming := [];
      trace := [Get (SearchUsersPage "Seattle" 200 1);
                Get (UserProfile (JStr "https://api.github.com/users/a"));
                Get (SearchUsersPage "Seattle" 200 2)] |}) /\
  Words.search_pages (trace (snd (search_users "Seattle" 200 w))) = [1; 2] /\
  trace (snd (get_user_repositories (JStr "a") 0 w)) = [].
Proof.
  cbn zeta. split; [cbn; lia|]. split; [reflexivity|]. split; reflexivity.
Qed.

(** ** [main] *)

Section Main.

Import Py GitHubScraper Words.

Lemma each_login_logins (logins : list json) (users : list user_record) :
  forall all_repos w all_repos' w',
    each_login users all_repos w = (Ok all_repos', w') ->
    (forall user, In user users -> In (login user) logins) ->
    Forall (fun data => In (repo_login data) logins) all_repos ->
    Forall (fun data => In (repo_login data) logins) all_repos'.
Proof.
  induction users as [|user rest IH];
    intros all_repos w all_repos' w' H Hlogins Hall; cbn [each_login] in H.
  - now injection H as <- _.
  - unfold bind in H.
    destruct (get_user_repositories (login user) default_max_repos w)
      as [[repos|e|] w1] eqn:E; try discriminate H.
    apply (IH _ _ _ _ H).
    + intros u Hu. apply Hlogins. now right.
    + apply Forall_app. split; [assumption|].
      apply get_user_repositories_inv in E. destruct E as (repos0 & Hloop & ->).
      apply Forall_slice_to.
      apply repos_loop_logins in Hloop; [|constructor].
      eapply Forall_impl; [|exact Hloop].
      intros data ->. apply Hlogins. now left.
Qed.

Lemma steady_each_login (logins : list json) (users : list user_record) :
  (forall user, In user users -> In (login user) logins) ->
  forall all_repos, steady (lists_repos_of logins) (each_login users all_repos).
Proof.
  induction users as [|user rest IH]; intros Hlogins all_repos;
    cbn [each_login].
  - apply steady_ret.
  - apply steady_bind.
    + apply steady_get_user_repositories.
      intros page username page' Heq. injection Heq as <- _.
      apply Hlogins. now left.
    + intros repos. apply IH. intros u Hu. apply Hlogins. now right.
Qed.

Lemma main_inv (typed : string) (w : world) users all_repos w' :
  main typed w = (Ok (Some (users, all_repos)), w') ->
  exists w1,
    search_users "Seattle" 200 w = (Ok users, w1) /\
    each_login users [] w1 = (Ok all_repos, w').
Proof.
  unfold main. destruct (negb (truthy (JStr (PyStr.strip typed)))).
  - intros H. discriminate H.
  - unfold bind. intros H.
    destruct (search_users "Seattle" 200 w) as [[users0|e|] w1];
      try discriminate H.
    destruct (each_login users0 [] w1) as [[repos0|e|] w2] eqn:E;
      try discriminate H.
    injection H as <- <- <-. eauto.
Qed.

(** C7: every record [get_user_repositories] returns carries the username
    it was called with as its login; and in a run of [main] the users are
    those [search_users] returned, the repositories are gathered for these
    users one after the other, every repository record has the login of one
    of them, and every repository listing requested during the run is that
    of one of them. *)
Theorem repository_logins_reference_users :
  (forall username max_repos w r w',
      get_user_repositories username max_repos w = (Ok r, w') ->
      Forall (fun data => repo_login data = username) r) /\
  (forall typed w users all_repos w',
      main typed w = (Ok (Some (users, all_repos)), w') ->
      (exists w1,
          search_users "Seattle" 200 w = (Ok users, w1) /\
          each_login users [] w1 = (Ok all_repos, w')) /\
      Forall (fun data => In (repo_login data) (map login users)) all_repos /\
      exists tl,
        trace w' = trace w ++ tl /\
        Forall (only (lists_repos_of (map login users))) tl).
Proof.
  split.
  - intros username max_repos w r w' H.
    apply get_user_repositories_inv in H. destruct H as (repos & Hloop & ->).
    apply Forall_slice_to. apply repos_loop_logins in Hloop; [assumption|].
    constructor.
  - intros typed w users all_repos w' H.
    destruct (main_inv _ _ _ _ _ H) as (w1 & Hsearch & Heach).
    assert (Hlogins : forall user, In user users ->
                                   In (login user) (map login users))
      by (intros user Hu; now apply in_map).
    split; [eauto|]. split.
    + apply (each_login_logins _ _ _ _ _ _ Heach Hlogins). constructor.
    + apply (steady_search_users (lists_repos_of (map login users))) in Hsearch;
        [|discriminate|discriminate].
      apply (steady_each_login _ _ Hlogins) in Heach.
      destruct (steady_step _ _ _ _ Hsearch Heach) as [Htrace _].
      exact Htrace.
Qed.

End Main.

(** C7, on a run that finds one user with two repositories. *)
Lemma repository_logins_reference_users_witness :
  let w := {| incoming := [Words.ok_answer (Words.search_page ["https://api.github.com/users/a"]);
                           Words.ok_answer (Words.sample_profile "a");
                           Words.ok_answer (Words.search_page []);
                           Words.ok_answer (JArr [Words.sample_repo "a/x";
                                                  Words.sample_repo "a/y"])];
              trace := [] |} in
  let users := [Words.sample_user_record "a"] in
  let all_repos := [Words.sample_repo_record "a" "a/x";
                    Words.sample_repo_record "a" "a/y"] in
  Forall (fun data => repo_login data = JStr "a") all_repos /\
  Forall (fun data => In (repo_login data) (map login users)) all_repos.
Proof.
  intros w users all_repos. split.
  - apply (proj1 repository_logins_reference_users (JStr "a") 500
                 {| incoming := [Words.ok_answer (JArr [Words.sample_repo "a/x";
                                                        Words.sample_repo "a/y"])];
                    trace := [] |}
                 all_repos
                 {| incoming := [];
                    trace := [Get (UserReposPage (JStr "a") 1)] |}).
    reflexivity.
  - apply (proj2 repository_logins_reference_users " token " w users all_repos
                 {| incoming := [];
                    trace := [Get (SearchUsersPage "Seattle" 200 1);
                              Get (UserProfile (JStr "https://api.github.com/users/a"));
                              Get (SearchUsersPage "Seattle" 200 2);
                              Get (UserReposPage (JStr "a") 1)] |}).
    reflexivity.
Defined.

(** ** Sorting in reverse order *)

Section Sorted_reverse_facts.

Import Analysis.

Context {A K : Type}.
Variable leb : K -> K -> bool.
Variable key : A -> K.
Hypothesis leb_total : forall a b, leb a b = true \/ leb b a = true.
Hypothesis leb_trans :
  forall a b c, leb a b = true -> leb b c = true -> leb a c = true.

Lemma insert_desc_perm (x : A) (l : list A) :
  Permutation (insert_desc leb key x l) (x :: l).
Proof.
  induction l as [|y l IH]; cbn [insert_desc]; [reflexivity|].
  destruct (leb (key y) (key x)); [reflexivity|].
  rewrite IH. apply perm_swap.
Qed.

Lemma sorted_reverse_perm (l : list A) :
  Permutation (sorted_reverse leb key l) l.
Proof.
  induction l as [|x l IH]; cbn; [constructor|].
  rewrite insert_desc_perm. now constructor.
Qed.

Lemma insert_desc_sorted (x : A) (l : list A) :
  StronglySorted (not_below leb key) l ->
  StronglySorted (not_below leb key) (insert_desc leb key x l).
Proof.
  induction 1 as [|y l Hl IH Hy]; cbn [insert_desc].
  - repeat constructor.
  - destruct (leb (key y) (key x)) eqn:Hyx.
    + constructor; [now constructor|].
      constructor; [exact Hyx|].
      eapply Forall_impl; [|exact Hy].
      intros z Hz. unfold not_below in *. eauto.
    + constructor; [exact IH|].
      rewrite (insert_desc_perm x l). constructor; [|exact Hy].
      unfold not_below. destruct (leb_total (key x) (key y)); congruence.
Qed.

Lemma sorted_reverse_sorted (l : list A) :
  StronglySorted (not_below leb key) (sorted_reverse leb key l).
Proof.
  induction l as [|x l IH]; cbn; [constructor|].
  now apply insert_desc_sorted.
Qed.

Lemma insert_desc_ties (k : K) (x : A) (l : list A) :
  filter (tied leb key k) (insert_desc leb key x l) =
  filter (tied leb key k) (x :: l).
Proof.
  induction l as [|y l IH]; cbn [insert_desc]; [reflexivity|].
  destruct (leb (key y) (key x)) eqn:Hyx; [reflexivity|].
  cbn [filter] in *. rewrite IH.
  destruct (tied leb key k x) eqn:Hx; [|reflexivity].
  destruct (tied leb key k y) eqn:Hy; [|reflexivity].
  unfold tied in Hx, Hy.
  apply andb_true_iff in Hx. apply andb_true_iff in Hy.
  destruct Hx as [Hkx _], Hy as [_ Hyk].
  rewrite (leb_trans _ _ _ Hyk Hkx) in Hyx. discriminate Hyx.
Qed.

(** Stability: the elements level with any one key come out in the order
    they came in. *)
Lemma sorted_reverse_ties (k : K) (l : list A) :
  filter (tied leb key k) (sorted_reverse leb key l) =
  filter (tied leb key k) l.
Proof.
  induction l as [|x l IH]; cbn [sorted_reverse fold_right]; [reflexivity|].
  rewrite insert_desc_ties. cbn [filter].
  fold (sorted_reverse leb key l). now rewrite IH.
Qed.

End Sorted_reverse_facts.

(** ** The ranking cells *)

Section Rankings.

Import PyStr Analysis.

Lemma isspace_lower_char (c : ascii) : isspace (lower_char c) = isspace c.
Proof. destruct c as [[] [] [] [] [] [] [] []]; reflexivity. Qed.

Lemma lstrip_by_map (p : ascii -> bool) (f : ascii -> ascii) (l : list ascii) :
  (forall c, p (f c) = p c) ->
  lstrip_by p (map f l) = map f (lstrip_by p l).
Proof.
  intros Hf. induction l as [|c l IH]; cbn; [reflexivity|].
  rewrite Hf. now destruct (p c).
Qed.

Lemma lower_strip (s : string) : lower (strip s) = strip (lower s).
Proof.
  unfold lower, strip, strip_chars, rstrip_by.
  rewrite !list_ascii_of_string_of_list_ascii. f_equal.
  rewrite (lstrip_by_map isspace lower_char) by apply isspace_lower_char.
  rewrite <- map_rev.
  rewrite (lstrip_by_map isspace lower_char) by apply isspace_lower_char.
  now rewrite map_rev.
Qed.

(** The location test looks at the location in lower case only. *)
Lemma in_seattle_ignores_case (row row' : user_row) :
  lower (row_location row) = lower (row_location row') ->
  in_seattle row = in_seattle row'.
Proof. unfold in_seattle. rewrite !lower_strip. now intros ->. Qed.

Lemma tied_followers (k : Z) (e : string * Z) :
  tied Z.leb snd k e = (snd e =? k).
Proof.
  unfold tied.
  destruct (Z.leb_spec k (snd e)), (Z.leb_spec (snd e) k),
    (Z.eqb_spec (snd e) k); cbn; lia || reflexivity.
Qed.

Lemma StronglySorted_weaken {A : Type} (R R' : A -> A -> Prop) (l : list A) :
  (forall a b, R a b -> R' a b) -> StronglySorted R l -> StronglySorted R' l.
Proof.
  intros HR. induction 1 as [|x l Hl IH Hx]; constructor; [assumption|].
  eapply Forall_impl; [|exact Hx]. auto.
Qed.

(** C9: the top-five cell is a function of the table, so two runs on one
    table give one list; the rows it picks depend on the location in lower
    case only; and its ranking is the picked rows in descending order of
    followers, the rows with any one follower count standing in their input
    order, of which the first five are kept, again in input order among
    equals. *)
Theorem top_5_logins_stable (table : list user_row) :
  (forall table', table' = table -> top_5_logins table' = top_5_logins table) /\
  (forall row row',
      lower (row_location row) = lower (row_location row') ->
      in_seattle row = in_seattle row') /\
  top_5_logins table = map fst (firstn 5 (top_users table)) /\
  Permutation (top_users table) (users_in_seattle table) /\
  StronglySorted (fun a b => snd b <= snd a) (top_users table) /\
  (forall k,
      filter (fun e => snd e =? k) (top_users table) =
      filter (fun e => snd e =? k) (users_in_seattle table)) /\
  (forall k, exists later,
      filter (fun e => snd e =? k) (users_in_seattle table) =
      filter (fun e => snd e =? k) (firstn 5 (top_users table)) ++ later).
Proof.
  assert (Hties : forall k,
             filter (fun e => snd e =? k) (top_users table) =
             filter (fun e => snd e =? k) (users_in_seattle table)).
  { intros k. unfold top_users.
    rewrite <- !(filter_ext _ _ (tied_followers k)).
    apply sorted_reverse_ties. intros a b c. rewrite !Z.leb_le. lia. }
  repeat split.
  - now intros table' ->.
  - exact in_seattle_ignores_case.
  - apply sorted_reverse_perm.
  - apply StronglySorted_weaken with (R := not_below Z.leb snd).
    + intros a b. unfold not_below. now rewrite Z.leb_le.
    + apply sorted_reverse_sorted.
      * intros a b. rewrite !Z.leb_le. lia.
      * intros a b c. rewrite !Z.leb_le. lia.
  - exact Hties.
  - intros k. exists (filter (fun e => snd e =? k) (skipn 5 (top_users table))).
    rewrite <- filter_app, firstn_skipn. symmetry. apply Hties.
Qed.

(** C8: on the two rows of the scenario the strengths are 500/11 and 100,
    and the ranking puts ["b"] before ["a"]. *)
Theorem leader_strength_ranks_b_first :
  let a := {| row_login := "a"; row_location := "Seattle";
              row_followers := 500; row_following := 10 |} in
  let b := {| row_login := "b"; row_location := "Seattle";
              row_followers := 100; row_following := 0 |} in
  (leader_strength a == 500 # 11)%Q /\
  (leader_strength b == 100)%Q /\
  (leader_strength a < leader_strength b)%Q /\
  top_5_leader_strength [a; b] = ["b"; "a"].
Proof. repeat split. Qed.

End Rankings.

(** C9, on a table with three users level at 7 followers and three at 5. *)
Lemma top_5_logins_stable_witness :
  let row login location followers :=
    {| Analysis.row_login := login; Analysis.row_location := location;
       Analysis.row_followers := followers; Analysis.row_following := 0 |} in
  let table := [row "a" "Seattle, WA" 5; row "b" " SEATTLE " 7;
                row "c" "Tacoma" 100; row "d" "seattle" 5;
                row "e" "Greater Seattle Area" 7; row "f" "Seattle" 6;
                row "g" "seattle" 7; row "h" "seattle" 5] in
  Analysis.top_5_logins table = ["b"; "e"; "g"; "f"; "a"] /\
  Analysis.top_5_logins table = Analysis.top_5_logins table.
Proof.
  intros row table. split; [reflexivity|].
  apply (proj1 (top_5_logins_stable table) table). reflexivity.
Defined.

(** * Further properties of the collector *)

(** ** What a call of [_make_request] does *)

Section Request_outcome.

Import Py GitHubScraper Words.

Variable rq : request.

Lemma sleep_time_at_least_one (reset : Z) (now : Q) :
  (1 <= sleep_time reset now)%Q.
Proof.
  unfold sleep_time.
  setoid_replace 1%Q with (0 + 1)%Q at 1 by ring.
  apply Qplus_le_l. apply Q.le_max_r.
Qed.

Lemma sleep_time_reset_passed (reset : Z) (now : Q) :
  (inject_Z reset <= now)%Q -> (sleep_time reset now == 1)%Q.
Proof.
  intros H. unfold sleep_time.
  rewrite Q.max_r; [ring|].
  setoid_replace 0%Q with (now - now)%Q by ring.
  now apply Qplus_le_l.
Qed.

Lemma request_loop_outcome (answers : list exchange) :
  forall done r w',
    request_loop rq answers done = (r, w') ->
    exists used tl,
      answers = used ++ incoming w' /\
      trace w' = done ++ tl /\
      Forall (request_event rq) tl /\
      match r with
      | Ok body =>
          exists before x,
            used = before ++ [x] /\ Forall passed_over before /\
            status_code (reply x) = 200 /\ json_body (reply x) = Some body /\
            requests_in tl = length used
      | Raise (HTTPError status message) =>
          exists before x,
            used = before ++ [x] /\ Forall passed_over before /\
            status_code (reply x) = status /\ text (reply x) = message /\
            400 <= status < 600 /\ status <> 403 /\
            requests_in tl = length used
      | Raise ValueError =>
          exists before x,
            used = before ++ [x] /\ Forall passed_over before /\
            (status_code (reply x) = 200 /\ json_body (reply x) = None \/
             status_code (reply x) = 403 /\
             rate_limit_reset (reply x) = ResetGarbled) /\
            requests_in tl = length used
      | Raise OverflowError =>
          exists before x,
            used = before ++ [x] /\ Forall passed_over before /\
            status_code (reply x) = 403 /\
            requests_in tl = length used
      | Raise _ => False
      | Pending =>
          incoming w' = [] /\ Forall passed_over used /\
          requests_in tl = S (length used)
      end.
Proof.
  induction answers as [|x rest IH]; intros done r w' H.
  - cbn in H. injection H as <- <-. exists [], [Get rq]. cbn.
    repeat split; repeat constructor.
  - cbn [request_loop] in H.
    assert (Hgo : forall mid,
               passed_over x ->
               Forall (request_event rq) mid ->
               requests_in mid = 0%nat ->
               request_loop rq rest ((done ++ [Get rq]) ++ mid) = (r, w') ->
               exists used tl,
                 x :: rest = used ++ incoming w' /\
                 trace w' = done ++ tl /\
                 Forall (request_event rq) tl /\
                 match r with
                 | Ok body =>
                     exists before y,
                       used = before ++ [y] /\ Forall passed_over before /\
                       status_code (reply y) = 200 /\
                       json_body (reply y) = Some body /\
                       requests_in tl = length used
                 | Raise (HTTPError status message) =>
                     exists before y,
                       used = before ++ [y] /\ Forall passed_over before /\
                       status_code (reply y) = status /\
                       text (reply y) = message /\
                       400 <= status < 600 /\ status <> 403 /\
                       requests_in tl = length used
                 | Raise ValueError =>
                     exists before y,
                       used = before ++ [y] /\ Forall passed_over before /\
                       (status_code (reply y) = 200 /\
                        json_body (reply y) = None \/
                        status_code (reply y) = 403 /\
                        rate_limit_reset (reply y) = ResetGarbled) /\
                       requests_in tl = length used
                 | Raise OverflowError =>
                     exists before y,
                       used = before ++ [y] /\ Forall passed_over before /\
                       status_code (reply y) = 403 /\
                       requests_in tl = length used
                 | Raise _ => False
                 | Pending =>
                     incoming w' = [] /\ Forall passed_over used /\
                     requests_in tl = S (length used)
                 end).
    { intros mid Hx Hmid Hcount H0. apply IH in H0.
      destruct H0 as (used & tl & Hused & Htl & Ftl & Hr).
      exists (x :: used), (Get rq :: mid ++ tl). split; [now rewrite Hused|].
      split; [rewrite Htl; now rewrite <- !app_assoc|].
      split.
      { constructor; [reflexivity|]. apply Forall_app. now split. }
      assert (Hn : requests_in (Get rq :: mid ++ tl) = S (requests_in tl)).
      { unfold requests_in in *. cbn [filter length].
        rewrite filter_app, length_app, Hcount. reflexivity. }
      rewrite Hn.
      destruct r as [body|[k| | | |status message| |]|]; try exact Hr.
      - destruct Hr as (before & y & -> & Hb & Hy1 & Hy2 & Hc).
        exists (x :: before), y.
        repeat split; auto; cbn [length]; now rewrite Hc.
      - destruct Hr as (before & y & -> & Hb & Hy & Hc).
        exists (x :: before), y.
        repeat split; auto; cbn [length]; now rewrite Hc.
      - destruct Hr as (before & y & -> & Hb & Hy1 & Hy2 & Hy3 & Hy4 & Hc).
        exists (x :: before), y.
        repeat split; auto; try lia; cbn [length]; now rewrite Hc.
      - destruct Hr as (before & y & -> & Hb & Hy & Hc).
        exists (x :: before), y.
        repeat split; auto; cbn [length]; now rewrite Hc.
      - destruct Hr as (Hin & Hb & Hc).
        repeat split; auto; cbn [length]; now rewrite Hc. }
    assert (Hend : forall r0,
               (r0, {| incoming := rest; trace := done ++ [Get rq] |}) = (r, w') ->
               exists used tl,
                 x :: rest = used ++ incoming w' /\
                 trace w' = done ++ tl /\
                 Forall (request_event rq) tl /\
                 used = [] ++ [x] /\ requests_in tl = length used /\ r = r0).
    { intros r0 H0. injection H0 as <- <-. exists [x], [Get rq]. cbn.
      repeat split; repeat constructor. }
    destruct (Z.eqb_spec (status_code (reply x)) 200) as [H200|H200].
    { destruct (json_body (reply x)) as [body|] eqn:Hbody;
        destruct (Hend _ H) as (used & tl & Hu & Ht & Ft & Hx & Hc & ->);
        exists used, tl; repeat split; auto; exists [], x;
          repeat split; auto. }
    destruct (Z.eqb_spec (status_code (reply x)) 403) as [H403|H403].
    { destruct (reset_time (rate_limit_reset (reply x))) as [e|reset] eqn:Hreset.
      - assert (e = ValueError /\ rate_limit_reset (reply x) = ResetGarbled)
          as [-> Hg].
        { destruct (rate_limit_reset (reply x)); cbn in Hreset;
            try discriminate Hreset. now injection Hreset as <-. }
        destruct (Hend _ H) as (used & tl & Hu & Ht & Ft & Hx & Hc & ->).
        exists used, tl; repeat split; auto. exists [], x.
        repeat split; auto.
      - destruct (float_overflows reset
                  || sleep_overflows (sleep_time reset (clock x))).
        + destruct (Hend _ H) as (used & tl & Hu & Ht & Ft & Hx & Hc & ->).
          exists used, tl; repeat split; auto. exists [], x.
          repeat split; auto.
        + apply (Hgo [Sleep (sleep_time reset (clock x))]); auto.
          * split; auto.
          * repeat constructor. apply sleep_time_at_least_one. }
    unfold raises_for_status in H.
    destruct (Z.leb_spec 400 (status_code (reply x)));
      destruct (Z.ltb_spec (status_code (reply x)) 600); cbn [andb] in H.
    { destruct (Hend _ H) as (used & tl & Hu & Ht & Ft & Hx & Hc & ->).
      exists used, tl; repeat split; auto. exists [], x.
      repeat split; auto. }
    all: apply (Hgo []); auto; [split; [auto | right; lia] | now rewrite app_nil_r].
Qed.

(** X1: a call of [_make_request] is decided by the first answer that is
    not passed over.  A body comes back only from an answer with status 200;
    [HTTPError] is raised only for a status from 400 to 599 other than 403,
    with that answer's status and text; [OverflowError] is raised only at an
    answer with status 403; no [KeyError], [TypeError], [AttributeError] or
    [IndexError] is ever raised; and a call with no result yet has used up
    every answer there was. *)
Theorem make_request_outcome (w : world) (r : result json) (w' : world) :
  _make_request rq w = (r, w') ->
  exists used,
    incoming w = used ++ incoming w' /\
    decided_by r used /\
    (r = Pending -> incoming w' = []).
Proof.
  intros H. apply request_loop_outcome in H.
  destruct H as (used & tl & Hused & _ & _ & Hr).
  exists used. split; [exact Hused|].
  destruct r as [body|[k| | | |status message| |]|]; cbn [decided_by];
    try contradiction.
  - destruct Hr as (before & x & H1 & H2 & H3 & H4 & _).
    split; [|discriminate]. now exists before, x.
  - split; [exact I | discriminate].
  - destruct Hr as (before & x & H1 & H2 & H3 & H4 & H5 & H6 & _).
    split; [|discriminate]. exists before, x. repeat split; auto; lia.
  - destruct Hr as (before & x & H1 & H2 & H3 & _).
    split; [|discriminate]. now exists before, x.
  - destruct Hr as (H1 & H2 & _). now split.
Qed.

(** X2: a call of [_make_request rq] adds to the trace nothing but the
    request [rq] and sleeps of at least one second, and it sends exactly one
    request for each answer it uses, and one more while it is pending. *)
Theorem make_request_trace (w : world) (r : result json) (w' : world) :
  _make_request rq w = (r, w') ->
  exists used tl,
    incoming w = used ++ incoming w' /\
    trace w' = trace w ++ tl /\
    Forall (request_event rq) tl /\
    requests_in tl = requests_for r used.
Proof.
  intros H. apply request_loop_outcome in H.
  destruct H as (used & tl & Hused & Htl & Ftl & Hr).
  exists used, tl. repeat split; try assumption.
  destruct r as [body|[k| | | |status message| |]|]; cbn [requests_for];
    try contradiction.
  - now destruct Hr as (before & x & _ & _ & _ & _ & Hc).
  - now destruct Hr as (before & x & _ & _ & _ & Hc).
  - now destruct Hr as (before & x & _ & _ & _ & _ & _ & _ & Hc).
  - now destruct Hr as (before & x & _ & _ & _ & Hc).
  - now destruct Hr as (_ & _ & Hc).
Qed.

(** X3: after a 403 that can be waited out (reset header absent or an
    integer, wait within what [time.sleep] takes) the request is sent again
    after a sleep that is never shorter than one second, and is exactly one
    second when the reset epoch is not ahead of the clock (as it is when the
    header is absent and the clock is not negative). *)
Theorem rate_limit_sleep_bounds (x : exchange) (rest : list exchange)
        (tr : list event) :
  rate_limit_hit x ->
  exists seconds,
    _make_request rq {| incoming := x :: rest; trace := tr |} =
    _make_request rq
      {| incoming := rest; trace := tr ++ [Get rq; Sleep seconds] |} /\
    (1 <= seconds)%Q /\
    ((inject_Z (reset_epoch x) <= clock x)%Q -> (seconds == 1)%Q).
Proof.
  intros Hx. exists (sleep_time (reset_epoch x) (clock x)). split; [|split].
  - unfold _make_request. cbn [incoming trace].
    change (x :: rest) with ([x] ++ rest).
    rewrite request_loop_hits by (constructor; auto). reflexivity.
  - apply sleep_time_at_least_one.
  - apply sleep_time_reset_passed.
Qed.

End Request_outcome.

(** X1, on a 204, a 403 and then a 404. *)
Lemma make_request_outcome_witness :
  let rq := UserReposPage (JStr "octocat") 1 in
  let passed := [Words.answer 204 NoResetHeader None 0;
                 Words.answer 403 (ResetAt 10) None 4] in
  let last := Words.answer 404 NoResetHeader None 0 in
  let later := [Words.ok_answer JNull] in
  exists used,
    passed ++ last :: later = used ++ later /\
    Words.decided_by (Raise (HTTPError 404 "")) used /\
    (@Raise json (HTTPError 404 "") = Pending -> later = []).
Proof.
  intros rq passed last later.
  apply (make_request_outcome
           rq
           {| incoming := passed ++ last :: later; trace := [] |}
           (Raise (HTTPError 404 ""))
           {| incoming := later;
              trace := [Get rq; Get rq; Sleep (GitHubScraper.sleep_time 10 4);
                        Get rq] |}).
  reflexivity.
Defined.

(** X2, on the same answers. *)
Lemma make_request_trace_witness :
  let passed := [Words.answer 204 NoResetHeader None 0;
                 Words.answer 403 (ResetAt 10) None 4] in
  let last := Words.answer 404 NoResetHeader None 0 in
  let later := [Words.ok_answer JNull] in
  let rq := UserReposPage (JStr "octocat") 1 in
  let added := [Get rq; Get rq; Sleep (GitHubScraper.sleep_time 10 4);
                Get rq] in
  exists used tl,
    passed ++ last :: later = used ++ later /\
    [] ++ added = [] ++ tl /\
    Forall (Words.request_event rq) tl /\
    Words.requests_in tl = Words.requests_for (Raise (HTTPError 404 "")) used.
Proof.
  intros passed last later rq added.
  apply (make_request_trace
           rq
           {| incoming := passed ++ last :: later; trace := [] |}
           (Raise (HTTPError 404 ""))
           {| incoming := later; trace := added |}).
  reflexivity.
Defined.

(** X3, on an answer without the reset header read at a positive time. *)
Lemma rate_limit_sleep_bounds_witness :
  let rq := SearchUsersPage "Seattle" 200 1 in
  let x := Words.answer 403 NoResetHeader None 1700000000 in
  exists seconds,
    _make_request rq {| incoming := [x]; trace := [] |} =
    _make_request rq
      {| incoming := []; trace := [] ++ [Get rq; Sleep seconds] |} /\
    (1 <= seconds)%Q /\
    ((inject_Z (Words.reset_epoch x) <= clock x)%Q -> (seconds == 1)%Q).
Proof.
  intros rq x. apply (rate_limit_sleep_bounds rq x [] []).
  split; [reflexivity|]. split; [discriminate|]. split; reflexivity.
Defined.

(** ** What the collector asks of the server *)

Section Adds.

Import Py GitHubScraper Words.

Variable Q : event -> Prop.

Lemma adds_ret {A : Type} (a : A) : adds Q (ret a).
Proof.
  intros w r w' H. injection H as <- <-. exists []. split; [|constructor].
  now rewrite app_nil_r.
Qed.

Lemma adds_raise {A : Type} (e : exn) : adds Q (@raise A e).
Proof.
  intros w r w' H. injection H as <- <-. exists []. split; [|constructor].
  now rewrite app_nil_r.
Qed.

Lemma adds_pending {A : Type} : adds Q (fun w => (@Pending A, w)).
Proof.
  intros w r w' H. injection H as <- <-. exists []. split; [|constructor].
  now rewrite app_nil_r.
Qed.

Lemma adds_bind {A B : Type} (m : M A) (k : A -> M B) :
  adds Q m -> (forall a, adds Q (k a)) -> adds Q (bind m k).
Proof.
  intros Hm Hk w r w' H. unfold bind in H.
  destruct (m w) as [[a|e|] w1] eqn:E.
  - destruct (Hm _ _ _ E) as (t1 & H1 & F1).
    destruct (Hk _ _ _ _ H) as (t2 & H2 & F2).
    exists (t1 ++ t2). split; [now rewrite H2, H1, app_assoc|].
    apply Forall_app. now split.
  - injection H as <- <-. exact (Hm _ _ _ E).
  - injection H as <- <-. exact (Hm _ _ _ E).
Qed.

Lemma adds_bind_lift {A B : Type} (x : exn + A) (k : A -> M B) :
  (forall a, x = inr a -> adds Q (k a)) -> adds Q (bind (lift x) k).
Proof.
  intros Hk. destruct x as [e|a]; cbn [lift].
  - intros w r w' H. cbn in H. injection H as <- <-. exists [].
    split; [now rewrite app_nil_r | constructor].
  - intros w r w' H. exact (Hk a eq_refl w r w' H).
Qed.

Lemma adds_make_request (rq : request) :
  (forall e, request_event rq e -> Q e) -> adds Q (_make_request rq).
Proof.
  intros HQ w r w' H. apply request_loop_outcome in H.
  destruct H as (used & tl & _ & Htl & Ftl & _).
  exists tl. split; [exact Htl|].
  eapply Forall_impl; [|exact Ftl]. exact HQ.
Qed.

Hypothesis sleeps : forall seconds, (1 <= seconds)%Q -> Q (Sleep seconds).

Lemma request_event_allowed (rq : request) :
  Q (Get rq) -> forall e, request_event rq e -> Q e.
Proof. intros Hrq [rq'|seconds]; cbn; [now intros -> | apply sleeps]. Qed.

Lemma adds_each_user (items : list json) :
  (forall url, Q (Get (UserProfile url))) ->
  forall users, adds Q (each_user items users).
Proof.
  intros HQ. induction items as [|user rest IH]; intros users;
    cbn [each_user]; [apply adds_ret|].
  apply adds_bind_lift. intros url _.
  apply adds_bind; [|intros user_data].
  { apply adds_make_request. now apply request_event_allowed. }
  apply adds_bind_lift. intros cleaned _. apply IH.
Qed.

Lemma adds_search_loop (loc : string) (min_followers : Z) :
  (forall url, Q (Get (UserProfile url))) ->
  (forall page, 1 <= page -> Q (Get (SearchUsersPage loc min_followers page))) ->
  forall fuel page users,
    1 <= page -> adds Q (search_loop fuel loc min_followers page users).
Proof.
  intros HQ1 HQ2. induction fuel as [|fuel IH]; intros page users Hpage;
    cbn [search_loop]; [apply adds_pending|].
  apply adds_bind; [|intros response].
  { apply adds_make_request. apply request_event_allowed. now apply HQ2. }
  apply adds_bind_lift. intros items _.
  destruct (negb (truthy items)); [apply adds_ret|].
  destruct items; try apply adds_raise.
  apply adds_bind; [now apply adds_each_user | intros users'].
  apply IH. lia.
Qed.

Lemma each_repo_length (username : json) (response : list json) :
  forall repos repos',
    each_repo username response repos = inr repos' ->
    length repos' = (length repos + length response)%nat.
Proof.
  induction response as [|repo rest IH]; intros repos repos' H;
    cbn [each_repo] in H.
  - injection H as <-. cbn. lia.
  - destruct (repo_data username repo) as [e|data]; cbn [ebind] in H;
      [discriminate H|].
    rewrite (IH _ _ H), length_app. cbn. lia.
Qed.

Lemma adds_repos_loop (username : json) (max_repos : Z) :
  (forall page, 1 <= page -> 100 * (page - 1) < max_repos ->
                Q (Get (UserReposPage username page))) ->
  forall fuel page repos,
    1 <= page -> 100 * (page - 1) <= Z.of_nat (length repos) ->
    adds Q (repos_loop fuel username max_repos page repos).
Proof.
  intros HQ. induction fuel as [|fuel IH]; intros page repos Hpage Hinv;
    cbn [repos_loop];
    (destruct (Z.ltb_spec (Z.of_nat (length repos)) max_repos) as [Hcap|Hcap];
     [|apply adds_ret]); [apply adds_pending|].
  apply adds_bind; [|intros response].
  { apply adds_make_request. apply request_event_allowed. apply HQ; lia. }
  destruct (negb (truthy response)); [apply adds_ret|].
  destruct response; try apply adds_raise.
  apply adds_bind_lift. intros repos' Hrepos'.
  apply each_repo_length in Hrepos'.
  destruct (Z.ltb_spec (Z.of_nat (length items)) 100); [apply adds_ret|].
  apply IH; lia.
Qed.

Lemma adds_get_user_repositories (username : json) (max_repos : Z) :
  (forall page, 1 <= page -> 100 * (page - 1) < max_repos ->
                Q (Get (UserReposPage username page))) ->
  adds Q (get_user_repositories username max_repos).
Proof.
  intros HQ w r w' H. unfold get_user_repositories in H. revert H.
  apply adds_bind; [|intros; apply adds_ret].
  apply adds_repos_loop; [assumption | lia | cbn; lia].
Qed.

Lemma adds_each_login (users : list user_record) :
  (forall username page, 1 <= page <= 5 ->
                         Q (Get (UserReposPage username page))) ->
  forall all_repos, adds Q (each_login users all_repos).
Proof.
  intros HQ. induction users as [|user rest IH]; intros all_repos;
    cbn [each_login]; [apply adds_ret|].
  apply adds_bind; [|intros repos; apply IH].
  apply adds_get_user_repositories. intros page H1 H2. apply HQ.
  unfold default_max_repos in H2. lia.
Qed.

End Adds.

Section Requests.

Import Py GitHubScraper Words.

(** X4: [get_user_repositories] only asks for pages of the given user's
    repositories, numbered from 1, and opens page [p] only while
    [100 * (p - 1) < max_repos]: never a page beyond the one that brings the
    count to [max_repos] at 100 a page (at most five pages for the default
    cap of 500).  Its sleeps last a second or more. *)
Theorem get_user_repositories_page_bound (username : json) (max_repos : Z)
        (w : world) :
  exists tl,
    trace (snd (get_user_repositories username max_repos w)) = trace w ++ tl /\
    Forall (repos_event username max_repos) tl.
Proof.
  destruct (get_user_repositories username max_repos w) as [r w'] eqn:E.
  revert E. apply adds_get_user_repositories.
  - now intros seconds.
  - intros page H1 H2. cbn. auto.
Qed.

(** X5: whatever comes back, a run of [main] asks the server only for
    search pages for location Seattle and 200 followers, numbered from 1,
    for profiles, and for repository pages 1 to 5; and it never sleeps less
    than a second. *)
Theorem main_requests (typed : string) (w : world) :
  exists tl,
    trace (snd (main typed w)) = trace w ++ tl /\ Forall main_event tl.
Proof.
  destruct (main typed w) as [r w'] eqn:E. revert E.
  unfold main. destruct (negb (truthy (JStr (PyStr.strip typed))));
    [apply adds_ret|].
  apply adds_bind; [|intros users].
  - intros w0 r0 w0' H0. unfold search_users in H0. revert H0.
    apply adds_search_loop; try lia; cbn; auto.
  - apply adds_bind; [|intros; apply adds_ret].
    apply adds_each_login; cbn; auto.
Qed.

End Requests.

(** ** The records *)

Section Records.

Import PyStr Py GitHubScraper Words PyStrFacts.

Ltac ebind_inv H :=
  repeat match type of H with
         | ebind ?x _ = inr _ =>
             let E := fresh "E" in
             destruct x eqn:E; cbn [ebind] in H; [discriminate H|]
         end.

Lemma is_lower_upper_char (c : ascii) : is_lower (upper_char c) = false.
Proof. destruct c as [[] [] [] [] [] [] [] []]; reflexivity. Qed.

Lemma is_at_upper_char (c : ascii) : is_at (upper_char c) = is_at c.
Proof. destruct c as [[] [] [] [] [] [] [] []]; reflexivity. Qed.

Lemma isspace_upper_char (c : ascii) : isspace (upper_char c) = isspace c.
Proof. destruct c as [[] [] [] [] [] [] [] []]; reflexivity. Qed.

(** X6: whatever string comes in, the cleaned company has no lower-case
    letter from a to z, does not start with ["@"] and does not end in white
    space. *)
Theorem clean_company_name_shape (s : string) :
  exists cleaned,
    clean_company_name (JStr s) = inr cleaned /\
    (forall c, In c (list_ascii_of_string cleaned) -> is_lower c = false) /\
    (forall rest, cleaned <> String "@" rest) /\
    (forall before c,
        list_ascii_of_string cleaned = before ++ [c] -> isspace c = false).
Proof.
  rewrite clean_company_name_str.
  set (stripped := strip_chars (list_ascii_of_string s)).
  set (core := lstrip_at stripped).
  exists (string_of_list_ascii (map upper_char core)).
  split; [reflexivity|].
  rewrite list_ascii_of_string_of_list_ascii.
  destruct (lstrip_by_split is_at stripped) as (ats & Hats & _).
  fold (lstrip_at stripped) in Hats. fold core in Hats.
  repeat split.
  - intros c Hc. apply in_map_iff in Hc. destruct Hc as (c0 & <- & _).
    apply is_lower_upper_char.
  - intros rest H. apply (f_equal list_ascii_of_string) in H.
    rewrite list_ascii_of_string_of_list_ascii in H. cbn in H.
    destruct core as [|c0 core0] eqn:Hcore; [discriminate H|].
    cbn in H. injection H as Hc0 _.
    assert (Hat : is_at c0 = false).
    { unfold core, lstrip_at in Hcore. exact (lstrip_by_head _ _ _ _ Hcore). }
    rewrite <- is_at_upper_char, Hc0 in Hat. discriminate Hat.
  - intros before c H.
    assert (Hlast : exists before0 c0, core = before0 ++ [c0] /\ upper_char c0 = c).
    { destruct (rev core) as [|c0 rcore] eqn:Hrev.
      - apply (f_equal (@rev ascii)) in Hrev. rewrite rev_involutive in Hrev.
        rewrite Hrev in H. destruct before; discriminate H.
      - apply (f_equal (@rev ascii)) in Hrev. rewrite rev_involutive in Hrev.
        cbn in Hrev. exists (rev rcore), c0. split; [exact Hrev|].
        rewrite Hrev, map_app in H. cbn in H.
        apply app_inj_tail in H. now destruct H. }
    destruct Hlast as (before0 & c0 & Hcore & <-).
    rewrite isspace_upper_char.
    destruct (strip_chars_trimmed (list_ascii_of_string s)) as [_ Hend].
    apply (Hend c0 (ats ++ before0)). fold stripped.
    now rewrite Hats, Hcore, app_assoc.
Qed.

Lemma item_or_empty_spec (d : json) (k : string) (v' : json) :
  item_or_empty d k = inr v' ->
  exists v, getitem d k = inr v /\ v' = or_empty v.
Proof.
  unfold item_or_empty, or_empty. destruct (getitem d k) as [e|v] eqn:E;
    cbn [ebind]; [discriminate|].
  destruct (truthy v) eqn:Ht; intros H; exists v; rewrite Ht; split;
    congruence.
Qed.

Lemma item_or_false_spec (d : json) (k : string) (v' : json) :
  item_or_false d k = inr v' ->
  exists v, getitem d k = inr v /\ v' = or_false v.
Proof.
  unfold item_or_false, or_false. destruct (getitem d k) as [e|v] eqn:E;
    cbn [ebind]; [discriminate|].
  destruct v; intros H; eexists; split; try reflexivity; congruence.
Qed.

(** X7: a user record is the profile field by field.  Login, the three
    counts and the creation time are the profile's values as they are; name,
    location, email and bio are the profile's values unless they count as
    false (null, the empty string), when they are the empty string; hireable
    is the profile's value, an explicit [false] included, unless it is null,
    when it is [false]; and company is the cleaned value of the key
    ["company"], which alone may be absent from the profile. *)
Theorem cleaned_data_fields (user_data : json) (u : user_record) :
  cleaned_data user_data = inr u ->
  getitem user_data "login" = inr (login u) /\
  (exists v, getitem user_data "name" = inr v /\ name u = or_empty v) /\
  (exists c, get user_data "company" = inr c /\
             clean_company_name c = inr (company u)) /\
  (exists v, getitem user_data "location" = inr v /\ location u = or_empty v) /\
  (exists v, getitem user_data "email" = inr v /\ email u = or_empty v) /\
  (exists v, getitem user_data "hireable" = inr v /\ hireable u = or_false v) /\
  (exists v, getitem user_data "bio" = inr v /\ bio u = or_empty v) /\
  getitem user_data "public_repos" = inr (public_repos u) /\
  getitem user_data "followers" = inr (followers u) /\
  getitem user_data "following" = inr (following u) /\
  getitem user_data "created_at" = inr (created_at u) /\
  (forall fields,
      user_data = JObj fields -> assoc "company" fields = None ->
      company u = "").
Proof.
  unfold cleaned_data. intros H. ebind_inv H. injection H as <-.
  cbn [login name company location email hireable bio public_repos followers
       following created_at].
  repeat match goal with
         | E : item_or_empty _ _ = inr _ |- _ => apply item_or_empty_spec in E
         | E : item_or_false _ _ = inr _ |- _ => apply item_or_false_spec in E
         end.
  repeat split; eauto.
  intros fields -> Hnone.
  match goal with
  | E : get (JObj fields) "company" = inr ?c, E' : clean_company_name ?c = inr _
    |- _ => cbn [get] in E; rewrite Hnone in E; injection E as <-;
            cbn in E'; now injection E' as <-
  end.
Qed.

Lemma license_key_spec (repo : json) (v : json) :
  license_key repo = inr v ->
  exists license,
    get repo "license" = inr license /\
    (truthy license = true -> getitem license "key" = inr v) /\
    (truthy license = false -> v = JStr "").
Proof.
  unfold license_key. destruct (get repo "license") as [e|license] eqn:E;
    cbn [ebind]; [discriminate|].
  destruct (truthy license) eqn:Ht.
  - destruct (getitem repo "license") as [e|license'] eqn:E'; cbn [ebind];
      [discriminate|].
    assert (license' = license).
    { destruct repo; try discriminate E. cbn in E, E'.
      destruct (assoc "license" fields); [|discriminate E']. congruence. }
    subst license'. intros H. exists license. repeat split; congruence.
  - intros H. exists license. repeat split; congruence.
Qed.

(** X8: a repository record is the listing's item field by field.  The
    login is the username asked for; full name, creation time, the two
    counts and the two flags are the item's values as they are; language is
    the item's value, or the empty string when that counts as false (null);
    and the licence name is the licence's ["key"], or the empty string when
    the item has no licence (key absent, or null). *)
Theorem repo_data_fields (username repo : json) (data : repo_record) :
  repo_data username repo = inr data ->
  repo_login data = username /\
  getitem repo "full_name" = inr (full_name data) /\
  getitem repo "created_at" = inr (repo_created_at data) /\
  getitem repo "stargazers_count" = inr (stargazers_count data) /\
  getitem repo "watchers_count" = inr (watchers_count data) /\
  (exists v, getitem repo "language" = inr v /\ language data = or_empty v) /\
  getitem repo "has_projects" = inr (has_projects data) /\
  getitem repo "has_wiki" = inr (has_wiki data) /\
  (exists license,
      get repo "license" = inr license /\
      (truthy license = true ->
       getitem license "key" = inr (license_name data)) /\
      (truthy license = false -> license_name data = JStr "")).
Proof.
  unfold repo_data. intros H. ebind_inv H. injection H as <-.
  cbn [repo_login full_name repo_created_at stargazers_count watchers_count
       language has_projects has_wiki license_name].
  repeat match goal with
         | E : item_or_empty _ _ = inr _ |- _ => apply item_or_empty_spec in E
         | E : license_key _ = inr _ |- _ => apply license_key_spec in E
         end.
  repeat split; eauto.
Qed.

End Records.

(** ** Runs against a server that always answers 200 *)

Section Scripts.

Import Py GitHubScraper Words.

Lemma collect_app {A B : Type} (f : A -> exn + B) (l1 l2 : list A)
      (bs : list B) :
  collect f (l1 ++ l2) = inr bs ->
  exists bs1 bs2,
    collect f l1 = inr bs1 /\ collect f l2 = inr bs2 /\ bs = bs1 ++ bs2.
Proof.
  revert bs. induction l1 as [|a l1 IH]; intros bs H; cbn [app collect] in *.
  - exists [], bs. auto.
  - destruct (f a) as [e|b]; cbn [ebind] in *; [discriminate H|].
    destruct (collect f (l1 ++ l2)) as [e|bs'] eqn:E; cbn [ebind] in H;
      [discriminate H|].
    injection H as <-. destruct (IH _ eq_refl) as (bs1 & bs2 & -> & H2 & ->).
    exists (b :: bs1), bs2. cbn [ebind]. auto.
Qed.

Lemma collect_length {A B : Type} (f : A -> exn + B) (l : list A)
      (bs : list B) :
  collect f l = inr bs -> length bs = length l.
Proof.
  revert bs. induction l as [|a l IH]; intros bs H; cbn [collect] in H.
  - now injection H as <-.
  - destruct (f a) as [e|b]; cbn [ebind] in H; [discriminate H|].
    destruct (collect f l) as [e|bs'] eqn:E; cbn [ebind] in H;
      [discriminate H|].
    injection H as <-. cbn. now rewrite (IH _ eq_refl).
Qed.

Lemma each_repo_collect (username : json) (response : list json)
      (records : list repo_record) :
  collect (repo_data username) response = inr records ->
  forall repos, each_repo username response repos = inr (repos ++ records).
Proof.
  revert records. induction response as [|repo rest IH]; intros records H repos;
    cbn [collect each_repo] in *.
  - injection H as <-. now rewrite app_nil_r.
  - destruct (repo_data username repo) as [e|data]; cbn [ebind] in *;
      [discriminate H|].
    destruct (collect (repo_data username) rest) as [e|records'] eqn:E;
      cbn [ebind] in H; [discriminate H|].
    injection H as <-. rewrite (IH _ eq_refl). now rewrite <- app_assoc.
Qed.

Lemma make_request_ok_answer (rq : request) (body : json)
      (rest : list exchange) (tr : list event) :
  _make_request rq {| incoming := ok_answer body :: rest; trace := tr |} =
  (Ok body, {| incoming := rest; trace := tr ++ [Get rq] |}).
Proof. reflexivity. Qed.

Lemma repos_loop_script (username : json) (max_repos : Z)
      (final : list json) (rest : list exchange) :
  forall full page repos tr fuel records,
    Forall (fun p => (100 <= length p)%nat) full ->
    Z.of_nat (length repos + length (concat full)) < max_repos ->
    ((length final < 100)%nat \/
     max_repos <= Z.of_nat (length repos + length (concat full) + length final)) ->
    collect (repo_data username) (concat full ++ final) = inr records ->
    (length full < fuel)%nat ->
    repos_loop fuel username max_repos page repos
               {| incoming := repos_script (full ++ [final]) ++ rest;
                  trace := tr |} =
    (Ok (repos ++ records),
     {| incoming := rest;
        trace := tr ++ page_requests username page (S (length full)) |}).
Proof.
  induction full as [|p full IH];
    intros page repos tr fuel records Hfull Hbelow Hfinal Hrecords Hfuel;
    (destruct fuel as [|fuel]; [cbn in Hfuel; lia|]);
    cbn [repos_loop];
    (destruct (Z.ltb_spec (Z.of_nat (length repos)) max_repos);
     [|cbn [concat] in Hbelow; lia]);
    cbn [app repos_script map concat length page_requests] in *;
    unfold bind; rewrite make_request_ok_answer.
  - destruct final as [|repo final].
    + cbn in Hrecords. injection Hrecords as <-. cbn. now rewrite app_nil_r.
    + cbn [truthy negb].
      rewrite (each_repo_collect _ _ _ Hrecords). cbn [lift ret].
      apply collect_length in Hrecords.
      destruct (Z.ltb_spec (Z.of_nat (length (repo :: final))) 100);
        [reflexivity|].
      rewrite repos_loop_cap_reached; [reflexivity|].
      rewrite length_app, Hrecords. lia.
  - inversion Hfull as [|? ? Hp Hfull']; subst.
    rewrite <- app_assoc in Hrecords.
    apply collect_app in Hrecords.
    destruct Hrecords as (records1 & records2 & H1 & H2 & ->).
    destruct p as [|repo p]; [cbn in Hp; lia|]. cbn [truthy negb].
    rewrite (each_repo_collect _ _ _ H1). cbn [lift ret].
    apply collect_length in H1.
    destruct (Z.ltb_spec (Z.of_nat (length (repo :: p))) 100); [lia|].
    rewrite length_app in Hbelow, Hfinal.
    fold (repos_script (full ++ [final])).
    rewrite (IH (page + 1) (repos ++ records1)
                (tr ++ [Get (UserReposPage username page)]) fuel records2);
      try assumption.
    + now rewrite <- !app_assoc.
    + rewrite length_app, H1. lia.
    + rewrite length_app, H1. destruct Hfinal; [now left | right; lia].
    + lia.
Qed.

(** X9: against a server that answers every request for a page of
    repositories with a 200, [get_user_repositories] reads the pages in order
    up to and including the first one that is short of 100 items or brings
    the count to [max_repos], takes these pages' answers and no other, asks
    for each of them once, and returns their records in order, cut to
    [max_repos]: all of them when the user has no more than [max_repos]. *)
Theorem get_user_repositories_reads_pages (username : json) (max_repos : Z)
        (full : list (list json)) (final : list json)
        (records : list repo_record) (rest : list exchange)
        (tr : list event) :
  Forall (fun p => (100 <= length p)%nat) full ->
  Z.of_nat (length (concat full)) < max_repos ->
  ((length final < 100)%nat \/
   max_repos <= Z.of_nat (length (concat full) + length final)) ->
  collect (repo_data username) (concat full ++ final) = inr records ->
  get_user_repositories username max_repos
    {| incoming := repos_script (full ++ [final]) ++ rest; trace := tr |} =
  (Ok (firstn (Z.to_nat max_repos) records),
   {| incoming := rest;
      trace := tr ++ page_requests username 1 (S (length full)) |}) /\
  (Z.of_nat (length records) <= max_repos ->
   firstn (Z.to_nat max_repos) records = records).
Proof.
  intros Hfull Hbelow Hfinal Hrecords. split.
  - unfold get_user_repositories, bind. cbn [incoming].
    rewrite (repos_loop_script username max_repos final rest full 1 [] tr _
                               records); try assumption.
    + cbn [app ret]. unfold slice_to.
      destruct (Z.leb_spec 0 max_repos); [reflexivity | lia].
    + unfold repos_script. rewrite length_app, length_map, length_app. cbn. lia.
  - intros Hle. apply firstn_all2. lia.
Qed.

Lemma each_user_script (rest : list exchange) :
  forall hits users tr records,
    Forall (fun hit => exists url, getitem (fst hit) "url" = inr url) hits ->
    collect cleaned_data (map snd hits) = inr records ->
    each_user (map fst hits) users
              {| incoming := hit_answers hits ++ rest; trace := tr |} =
    (Ok (users ++ records),
     {| incoming := rest; trace := tr ++ hit_requests hits |}).
Proof.
  induction hits as [|hit hits IH]; intros users tr records Hurls Hrecords;
    cbn [map each_user hit_answers hit_requests app collect] in *.
  - injection Hrecords as <-. cbn. now rewrite !app_nil_r.
  - inversion Hurls as [|? ? [url Hurl] Hurls']; subst.
    destruct (cleaned_data (snd hit)) as [e|cleaned] eqn:Hc; cbn [ebind] in *;
      [discriminate Hrecords|].
    destruct (collect cleaned_data (map snd hits)) as [e|records'] eqn:E;
      cbn [ebind] in Hrecords; [discriminate Hrecords|].
    injection Hrecords as <-.
    unfold bind. unfold hit_url. rewrite Hurl. cbn [lift ret].
    rewrite make_request_ok_answer, Hc. cbn [lift ret].
    fold (hit_answers hits). fold (hit_requests hits).
    rewrite (IH _ _ records' Hurls' eq_refl).
    now rewrite <- !app_assoc.
Qed.

Lemma search_loop_script (loc : string) (min_followers : Z) (last : json)
      (rest : list exchange) (no_items : json) :
  getitem last "items" = inr no_items -> truthy no_items = false ->
  forall pages page users tr fuel records,
    Forall page_of_hits pages ->
    collect cleaned_data (map snd (flat_map snd pages)) = inr records ->
    (length pages < fuel)%nat ->
    search_loop fuel loc min_followers page users
                {| incoming := search_script pages last ++ rest; trace := tr |} =
    (Ok (users ++ records),
     {| incoming := rest;
        trace := tr ++ search_trace loc min_followers page pages |}).
Proof.
  intros Hlast Hno.
  induction pages as [|p pages IH];
    intros page users tr fuel records Hpages Hrecords Hfuel;
    (destruct fuel as [|fuel]; [cbn in Hfuel; lia|]);
    cbn [search_loop]; unfold search_script;
    cbn [flat_map app search_trace map collect] in *;
    unfold bind; rewrite make_request_ok_answer.
  - rewrite Hlast. cbn [lift ret]. rewrite Hno. cbn [negb].
    injection Hrecords as <-. now rewrite app_nil_r.
  - inversion Hpages as [|? ? (Hitems & Hne & Hurls) Hpages']; subst.
    rewrite Hitems. cbn [lift ret].
    destruct (snd p) as [|hit hits] eqn:Hp; [congruence|].
    cbn [map truthy negb].
    rewrite map_app in Hrecords. apply collect_app in Hrecords.
    destruct Hrecords as (records1 & records2 & H1 & H2 & ->).
    change (fst hit :: map fst hits) with (map fst (hit :: hits)).
    rewrite <- !app_assoc.
    rewrite (each_user_script _ (hit :: hits) users _ records1 Hurls H1).
    rewrite (app_assoc (flat_map _ pages) [ok_answer last] rest).
    fold (search_script pages last).
    rewrite (IH (page + 1) (users ++ records1) _ fuel records2 Hpages' H2);
      [|cbn in Hfuel; lia].
    rewrite <- !app_assoc. reflexivity.
Qed.

(** X10: against a server that answers every request with a 200, pages of
    hits and then a page without items, [search_users] asks for each page
    once and, after each, for the profile of each of its hits in order; it
    takes exactly these answers; and it returns the records of the hits'
    profiles, one per hit and in the order of the hits. *)
Theorem search_users_reads_pages (loc : string) (min_followers : Z)
        (pages : list (json * list (json * json))) (last no_items : json)
        (records : list user_record) (rest : list exchange)
        (tr : list event) :
  Forall page_of_hits pages ->
  getitem last "items" = inr no_items -> truthy no_items = false ->
  collect cleaned_data (map snd (flat_map snd pages)) = inr records ->
  search_users loc min_followers
    {| incoming := search_script pages last ++ rest; trace := tr |} =
  (Ok records,
   {| incoming := rest;
      trace := tr ++ search_trace loc min_followers 1 pages |}) /\
  length records = length (flat_map snd pages).
Proof.
  intros Hpages Hlast Hno Hrecords. split.
  - unfold search_users. cbn [incoming].
    rewrite (search_loop_script loc min_followers last rest no_items Hlast Hno
                                pages 1 [] tr _ records Hpages Hrecords).
    + reflexivity.
    + unfold search_script. rewrite !length_app. cbn [length].
      assert (length pages <=
              length (flat_map (fun page => ok_answer (fst page)
                                            :: hit_answers (snd page)) pages))%nat.
      { clear. induction pages as [|p pages IH]; cbn [flat_map length];
          [lia|]. rewrite length_app. cbn [length]. lia. }
      lia.
  - apply collect_length in Hrecords. now rewrite length_map in Hrecords.
Qed.

End Scripts.

(** X9, on two pages of 100 repositories under a cap of 150. *)
Lemma get_user_repositories_reads_pages_witness :
  let page := repeat (Words.sample_repo "u/r") 100 in
  let records := repeat (Words.sample_repo_record "u" "u/r") 200 in
  let later := [Words.ok_answer JNull] in
  get_user_repositories (JStr "u") 150
    {| incoming := Words.repos_script ([page] ++ [page]) ++ later;
       trace := [] |} =
  (Ok (firstn (Z.to_nat 150) records),
   {| incoming := later;
      trace := [] ++ Words.page_requests (JStr "u") 1 2 |}) /\
  (Z.of_nat (length records) <= 150 ->
   firstn (Z.to_nat 150) records = records).
Proof.
  intros page records later.
  apply (get_user_repositories_reads_pages (JStr "u") 150 [page] page records
                                           later []).
  - constructor; [|constructor]. unfold page. rewrite repeat_length. lia.
  - unfold page. cbn [concat]. rewrite app_nil_r, repeat_length. lia.
  - right. unfold page. cbn [concat]. rewrite app_nil_r, !repeat_length. lia.
  - vm_compute. reflexivity.
Defined.

(** X10, on one page with one hit. *)
Lemma search_users_reads_pages_witness :
  let hit := (JObj [("login", JStr "a"); ("url", JStr "https://api.github.com/users/a")],
              Words.sample_profile "a") in
  let page := (JObj [("total_count", JNum 1); ("items", JArr [fst hit])],
               [hit]) in
  let last := JObj [("total_count", JNum 1); ("items", JArr [])] in
  let later := [Words.ok_answer JNull] in
  search_users "Seattle" 200
    {| incoming := Words.search_script [page] last ++ later; trace := [] |} =
  (Ok [Words.sample_user_record "a"],
   {| incoming := later;
      trace := [] ++ Words.search_trace "Seattle" 200 1 [page] |}) /\
  length [Words.sample_user_record "a"] = length (flat_map snd [page]).
Proof.
  intros hit page last later.
  apply (search_users_reads_pages "Seattle" 200 [page] last (JArr [])
                                  [Words.sample_user_record "a"] later []).
  - constructor; [|constructor]. split; [reflexivity|]. split; [discriminate|].
    constructor; [|constructor]. now exists (JStr "https://api.github.com/users/a").
  - reflexivity.
  - reflexivity.
  - reflexivity.
Defined.

(** ** More on [main] *)

Section Main_more.

Import PyStr Py GitHubScraper Words PyStrFacts.

Lemma lstrip_by_nil (p : ascii -> bool) (l : list ascii) :
  lstrip_by p l = [] <-> forallb p l = true.
Proof.
  induction l as [|c l IH]; cbn; [tauto|].
  destruct (p c); cbn; [exact IH|]. split; discriminate.
Qed.

Lemma forallb_rev (p : ascii -> bool) (l : list ascii) :
  forallb p (rev l) = forallb p l.
Proof.
  apply eq_true_iff_eq. rewrite !forallb_forall.
  split; intros H x Hx; apply H.
  - apply (proj1 (in_rev l x)). exact Hx.
  - apply (proj2 (in_rev l x)). exact Hx.
Qed.

Lemma strip_chars_nil (l : list ascii) :
  strip_chars l = [] <-> forallb isspace l = true.
Proof.
  unfold strip_chars, rstrip_by. split.
  - intros H. apply (f_equal (@rev ascii)) in H.
    rewrite rev_involutive in H. cbn in H.
    apply lstrip_by_nil in H. rewrite forallb_rev in H.
    destruct (lstrip_by isspace l) as [|c m] eqn:E.
    + now apply lstrip_by_nil.
    + apply lstrip_by_head in E. cbn in H. rewrite E in H. discriminate H.
  - intros H. apply lstrip_by_nil in H. now rewrite H.
Qed.

Lemma strip_empty (s : string) :
  strip s = "" <-> forallb isspace (list_ascii_of_string s) = true.
Proof.
  unfold strip. rewrite <- strip_chars_nil. split.
  - intros H. apply (f_equal list_ascii_of_string) in H.
    now rewrite list_ascii_of_string_of_list_ascii in H.
  - now intros ->.
Qed.

Lemma first_event_then {A B : Type} (m : M A) (k : A -> M B) (e : event)
      (w : world) :
  (forall r w1, m w = (r, w1) -> exists tl, trace w1 = trace w ++ e :: tl) ->
  (forall a, adds (fun _ => True) (k a)) ->
  exists tl, trace (snd (bind m k w)) = trace w ++ e :: tl.
Proof.
  intros Hm Hk. unfold bind.
  destruct (m w) as [[a|e'|] w1] eqn:E;
    destruct (Hm _ _ eq_refl) as [tl Htl]; cbn [snd]; eauto.
  destruct (k a w1) as [r2 w2] eqn:E2.
  destruct (Hk _ _ _ _ E2) as (t2 & H2 & _). cbn [snd].
  exists (tl ++ t2). now rewrite H2, Htl, <- app_assoc.
Qed.

(** X11: a line at the token prompt that is empty or all white space stops
    [main] before anything is asked of the server; any other line starts the
    run, whose first request is page 1 of the search for Seattle and 200
    followers. *)
Theorem main_needs_token (typed : string) (w : world) :
  (forallb isspace (list_ascii_of_string typed) = true ->
   main typed w = (Ok None, w)) /\
  (forallb isspace (list_ascii_of_string typed) = false ->
   exists tl,
     trace (snd (main typed w)) =
     trace w ++ Get (SearchUsersPage "Seattle" 200 1) :: tl).
Proof.
  unfold main. cbn [truthy]. split; intros H.
  - apply strip_empty in H. now rewrite H.
  - destruct (String.eqb_spec (strip typed) "") as [He|He].
    + apply strip_empty in He. congruence.
    + cbn [negb]. apply first_event_then.
      * intros r w1. unfold search_users. apply search_loop_first_page.
      * intros users. apply adds_bind; [|intros; apply adds_ret].
        apply adds_each_login; trivial.
Qed.

Lemma length_slice_to {A : Type} (l : list A) (n : Z) :
  0 <= n -> Z.of_nat (length (slice_to l n)) <= n.
Proof.
  intros Hn. unfold slice_to. destruct (Z.leb_spec 0 n); [|lia].
  pose proof (firstn_le_length (Z.to_nat n) l). lia.
Qed.

Lemma each_login_groups (users : list user_record) :
  forall all_repos w all_repos' w',
    each_login users all_repos w = (Ok all_repos', w') ->
    exists groups,
      all_repos' = all_repos ++ concat groups /\
      Forall2 (fun user group =>
                 Forall (fun data => repo_login data = login user) group /\
                 (length group <= 500)%nat)
              users groups.
Proof.
  induction users as [|user rest IH]; intros all_repos w all_repos' w' H;
    cbn [each_login] in H.
  - injection H as <- _. exists []. cbn. split; [now rewrite app_nil_r|].
    constructor.
  - unfold bind in H.
    destruct (get_user_repositories (login user) default_max_repos w)
      as [[repos|e|] w1] eqn:E; try discriminate H.
    destruct (IH _ _ _ _ H) as (groups & -> & Hgroups).
    exists (repos :: groups). cbn [concat]. split; [now rewrite app_assoc|].
    constructor; [|exact Hgroups].
    apply get_user_repositories_inv in E. destruct E as (repos0 & Hloop & ->).
    split.
    + apply Forall_slice_to. apply repos_loop_logins in Hloop; [assumption|].
      constructor.
    + pose proof (length_slice_to repos0 default_max_repos) as Hlen.
      unfold default_max_repos in *. lia.
Qed.

(** X12: the repositories table [main] builds is the users' repositories
    group after group, in the order of the users table: one group for each
    user, of at most 500 records, all with that user's login.  So it has at
    most 500 rows for each row of the users table. *)
Theorem main_groups_repositories (typed : string) (w : world)
        (users : list user_record) (all_repos : list repo_record)
        (w' : world) :
  main typed w = (Ok (Some (users, all_repos)), w') ->
  (exists groups,
      all_repos = concat groups /\
      Forall2 (fun user group =>
                 Forall (fun data => repo_login data = login user) group /\
                 (length group <= 500)%nat)
              users groups) /\
  (length all_repos <= 500 * length users)%nat.
Proof.
  intros H. destruct (main_inv _ _ _ _ _ H) as (w1 & _ & Heach).
  apply each_login_groups in Heach. destruct Heach as (groups & -> & Hgroups).
  cbn [app]. split; [eauto|].
  clear -Hgroups. induction Hgroups as [|user group users groups [_ Hg] _ IH];
    cbn [concat length]; [lia|].
  rewrite length_app. lia.
Qed.

End Main_more.

(** X11, on a blank line and on a token. *)
Lemma main_needs_token_witness :
  let w := {| incoming := []; trace := [] |} in
  main "   " w = (Ok None, w) /\
  exists tl,
    trace (snd (main " ghp_token " w)) =
    trace w ++ Get (SearchUsersPage "Seattle" 200 1) :: tl.
Proof.
  intros w. split.
  - apply (proj1 (main_needs_token "   " w)). reflexivity.
  - apply (proj2 (main_needs_token " ghp_token " w)). reflexivity.
Defined.

(** X12, on a run that finds one user with two repositories. *)
Lemma main_groups_repositories_witness :
  let users := [Words.sample_user_record "a"] in
  let all_repos := [Words.sample_repo_record "a" "a/x";
                    Words.sample_repo_record "a" "a/y"] in
  (exists groups,
      all_repos = concat groups /\
      Forall2 (fun user group =>
                 Forall (fun data => repo_login data = login user) group /\
                 (length group <= 500)%nat)
              users groups) /\
  (length all_repos <= 500 * length users)%nat.
Proof.
  intros users all_repos.
  apply (main_groups_repositories
           " token "
           {| incoming := [Words.ok_answer (Words.search_page ["https://api.github.com/users/a"]);
                           Words.ok_answer (Words.sample_profile "a");
                           Words.ok_answer (Words.search_page []);
                           Words.ok_answer (JArr [Words.sample_repo "a/x";
                                                  Words.sample_repo "a/y"])];
              trace := [] |}
           users all_repos
           {| incoming := [];
              trace := [Get (SearchUsersPage "Seattle" 200 1);
                        Get (UserProfile (JStr "https://api.github.com/users/a"));
                        Get (SearchUsersPage "Seattle" 200 2);
                        Get (UserReposPage (JStr "a") 1)] |}).
  reflexivity.
Defined.

(** X7, on the sample profile. *)
Lemma cleaned_data_fields_witness :
  Py.getitem (Words.sample_profile "a") "login" =
  inr (login (Words.sample_user_record "a")).
Proof.
  exact (proj1 (cleaned_data_fields (Words.sample_profile "a")
                                    (Words.sample_user_record "a") eq_refl)).
Defined.

(** X8, on the sample repository. *)
Lemma repo_data_fields_witness :
  repo_login (Words.sample_repo_record "u" "u/a") = JStr "u".
Proof.
  exact (proj1 (repo_data_fields (JStr "u") (Words.sample_repo "u/a")
                                 (Words.sample_repo_record "u" "u/a") eq_refl)).
Defined.

(** * The cell of the most common surnames *)

(** ** Splitting a name *)

Section Split.

Import PyStr Surnames SurnameWords PyStrFacts Words.

Lemma split_chars_cons (c : ascii) (l : list ascii) :
  split_chars (c :: l) =
  if isspace c then split_chars l
  else
    match l with
    | [] => [[c]]
    | c' :: _ =>
        if isspace c' then [c] :: split_chars l
        else
          match split_chars l with
          | word :: words => (c :: word) :: words
          | [] => [[c]]
          end
    end.
Proof. reflexivity. Qed.

Lemma split_chars_spaces (spaces l : list ascii) :
  forallb isspace spaces = true ->
  split_chars (spaces ++ l) = split_chars l.
Proof.
  induction spaces as [|c spaces IH]; cbn; [reflexivity|].
  destruct (isspace c); cbn; [exact IH | discriminate].
Qed.

Lemma split_chars_all_spaces (spaces : list ascii) :
  forallb isspace spaces = true -> split_chars spaces = [].
Proof.
  intros H. rewrite <- (app_nil_r spaces). now rewrite split_chars_spaces.
Qed.

Lemma split_chars_word (word rest : list ascii) :
  word <> [] -> forallb not_space word = true ->
  (forall c r, rest = c :: r -> isspace c = true) ->
  split_chars (word ++ rest) = word :: split_chars rest.
Proof.
  intros Hne Hword Hrest.
  induction word as [|c word IH]; [congruence|].
  cbn [forallb] in Hword. apply andb_true_iff in Hword.
  destruct Hword as [Hc Hword]. unfold not_space in Hc.
  apply negb_true_iff in Hc.
  destruct word as [|c2 word].
  - cbn [app split_chars]. rewrite Hc.
    destruct rest as [|c' rest]; [reflexivity|].
    now rewrite (Hrest c' rest eq_refl).
  - assert (Hc2 : isspace c2 = false).
    { cbn [forallb] in Hword. apply andb_true_iff in Hword.
      destruct Hword as [H2 _]. now apply negb_true_iff in H2. }
    change ((c :: c2 :: word) ++ rest) with (c :: (c2 :: word) ++ rest).
    rewrite split_chars_cons, Hc.
    rewrite IH by (congruence || assumption).
    cbn [app]. now rewrite Hc2.
Qed.

Lemma split_chars_starts (c : ascii) (l : list ascii) :
  isspace c = false -> split_chars (c :: l) <> [].
Proof.
  intros Hc. cbn [split_chars]. rewrite Hc.
  destruct l as [|c' l]; [discriminate|].
  destruct (isspace c'); [discriminate|].
  destruct (split_chars (c' :: l)); discriminate.
Qed.

Lemma split_chars_app (before l : list ascii) :
  at_word_start before ->
  split_chars (before ++ l) = split_chars before ++ split_chars l.
Proof.
  induction before as [|c before IH]; intros Hbefore; [reflexivity|].
  destruct before as [|c' before].
  - assert (Hc : isspace c = true) by (apply (Hbefore [] c); reflexivity).
    cbn [app split_chars]. now rewrite Hc.
  - assert (IH' : split_chars ((c' :: before) ++ l) =
                  split_chars (c' :: before) ++ split_chars l).
    { apply IH. intros b d Hb. apply (Hbefore (c :: b) d). now rewrite Hb. }
    cbn [app] in IH'. cbn [app].
    rewrite (split_chars_cons c (c' :: before ++ l)).
    rewrite (split_chars_cons c (c' :: before)).
    destruct (isspace c); [exact IH'|].
    destruct (isspace c') eqn:Hc'.
    + now rewrite IH'.
    + rewrite IH'.
      destruct (split_chars (c' :: before)) as [|word words] eqn:E.
      * now apply split_chars_starts in E.
      * reflexivity.
Qed.

Lemma item_last_app {A : Type} (l : list A) (a : A) :
  item_last (l ++ [a]) = Some a.
Proof.
  induction l as [|b l IH]; [reflexivity|].
  cbn [app item_last]. destruct (l ++ [a]) eqn:E; [|exact IH].
  now destruct l.
Qed.

(** A list with a character that is not white space ends in a last word
    and then white space only. *)
Lemma last_word_exists (l : list ascii) :
  forallb isspace l = false ->
  exists before word trail,
    l = before ++ word ++ trail /\
    at_word_start before /\
    word <> [] /\ forallb not_space word = true /\
    forallb isspace trail = true.
Proof.
  induction l as [|c l IH]; [discriminate|]. intros H.
  destruct (forallb isspace l) eqn:Hl.
  - cbn [forallb] in H. rewrite Hl, andb_true_r in H.
    exists [], [c], l. cbn. unfold not_space. rewrite H.
    repeat split; try easy. intros b d Hb. now destruct b.
  - destruct (IH eq_refl) as (before & word & trail & -> & Hb & Hw & Hword & Ht).
    destruct (isspace c) eqn:Hc.
    + exists (c :: before), word, trail. repeat split; try assumption.
      intros b d Hbd. destruct b as [|b0 b].
      * cbn in Hbd. now injection Hbd as <- _.
      * cbn in Hbd. injection Hbd as _ Hbd. exact (Hb _ _ Hbd).
    + destruct before as [|b0 before].
      * exists [], (c :: word), trail. cbn [forallb]. unfold not_space at 1.
        rewrite Hc. repeat split; try easy; intros b d Hbd; now destruct b.
      * exists (c :: b0 :: before), word, trail. repeat split; try assumption.
        intros b d Hbd. destruct b as [|b1 b]; [discriminate Hbd|].
        cbn in Hbd. injection Hbd as _ Hbd. exact (Hb _ _ Hbd).
Qed.

Lemma split_chars_last_word (before word trail : list ascii) :
  at_word_start before ->
  word <> [] -> forallb not_space word = true ->
  forallb isspace trail = true ->
  split_chars (before ++ word ++ trail) = split_chars before ++ [word].
Proof.
  intros Hb Hw Hword Ht.
  rewrite split_chars_app by assumption.
  rewrite split_chars_word; try assumption.
  - now rewrite (split_chars_all_spaces trail Ht).
  - intros c r ->. cbn in Ht. now apply andb_true_iff in Ht.
Qed.

Lemma stripped_name_last_word (name : string) :
  strip name <> "" ->
  exists before surname,
    item_last (split (strip name)) = Some (string_of_list_ascii surname) /\
    list_ascii_of_string (strip name) = before ++ surname /\
    at_word_start before /\
    surname <> [] /\
    forallb not_space surname = true.
Proof.
  intros Hname. unfold split, strip in *.
  rewrite list_ascii_of_string_of_list_ascii.
  set (l := strip_chars (list_ascii_of_string name)) in *.
  assert (Hl : forallb isspace l = false).
  { destruct (forallb isspace l) eqn:E; [|reflexivity].
    destruct l as [|c l0] eqn:El; [now contradiction Hname|].
    destruct (strip_chars_trimmed (list_ascii_of_string name)) as [Hhead _].
    fold l in Hhead. rewrite El in Hhead.
    cbn in E. rewrite (Hhead c l0 eq_refl) in E. discriminate E. }
  destruct (last_word_exists l Hl)
    as (before & word & trail & Hsplit & Hb & Hw & Hword & Ht).
  assert (trail = []).
  { destruct (rev trail) as [|c rt] eqn:Hr.
    - apply (f_equal (@rev ascii)) in Hr. now rewrite rev_involutive in Hr.
    - apply (f_equal (@rev ascii)) in Hr. rewrite rev_involutive in Hr.
      cbn in Hr.
      destruct (strip_chars_trimmed (list_ascii_of_string name)) as [_ Hend].
      fold l in Hend.
      assert (Hc : isspace c = false).
      { apply (Hend c (before ++ word ++ rev rt)).
        rewrite Hsplit, Hr. now rewrite <- !app_assoc. }
      rewrite Hr, forallb_app in Ht. cbn in Ht. rewrite Hc in Ht.
      rewrite andb_false_r in Ht. discriminate Ht. }
  subst trail. exists before, word.
  rewrite Hsplit, split_chars_last_word by assumption.
  rewrite map_app. cbn [map]. rewrite item_last_app, app_nil_r. auto.
Qed.

(** X13: a name that is not blank always has a last word, so the cell
    never fails with [IndexError]; and the surname it counts is the longest
    run of characters without white space at the end of the trimmed name,
    which is not empty. *)
Theorem surname_is_last_word (name : string) :
  strip name <> "" ->
  exists before surname,
    item_last (split (strip name)) = Some (string_of_list_ascii surname) /\
    list_ascii_of_string (strip name) = before ++ surname /\
    at_word_start before /\
    surname <> [] /\
    forallb not_space surname = true.
Proof. exact (stripped_name_last_word name). Qed.

End Split.

(** X13, on a name with three words. *)
Lemma surname_is_last_word_witness :
  exists before surname,
    Surnames.item_last (Surnames.split (PyStr.strip " Ada  Byron King "))
    = Some (string_of_list_ascii surname) /\
    list_ascii_of_string (PyStr.strip " Ada  Byron King ") = before ++ surname /\
    SurnameWords.at_word_start before /\
    surname <> [] /\
    forallb SurnameWords.not_space surname = true.
Proof.
  apply (surname_is_last_word " Ada  Byron King "). discriminate.
Defined.

(** ** Counting and reporting *)

Section Counting.

Import PyStr Analysis Surnames SurnameWords.

Lemma counter_get_increment (c : counter) (k k' : string) :
  counter_get (increment c k) k' =
  counter_get c k' + (if String.eqb k' k then 1 else 0).
Proof.
  induction c as [|[k0 n] c IH]; cbn [increment counter_get].
  - destruct (String.eqb k' k); reflexivity.
  - destruct (String.eqb_spec k k0) as [->|Hk]; cbn [counter_get].
    + destruct (String.eqb_spec k' k0); lia.
    + destruct (String.eqb_spec k' k0) as [->|Hk'].
      * destruct (String.eqb_spec k0 k); [congruence | lia].
      * exact IH.
Qed.

Lemma increment_keys (c : counter) (k : string) :
  map fst (increment c k) =
  if in_dec string_dec k (map fst c) then map fst c else map fst c ++ [k].
Proof.
  induction c as [|[k0 n] c IH]; cbn [increment map fst].
  - reflexivity.
  - destruct (String.eqb_spec k k0) as [->|Hk]; cbn [map fst].
    + destruct (in_dec string_dec k0 (k0 :: map fst c)) as [_|Hn];
        [reflexivity|]. exfalso. apply Hn. now left.
    + rewrite IH.
      destruct (in_dec string_dec k (map fst c)) as [Hin|Hin];
        destruct (in_dec string_dec k (k0 :: map fst c)) as [Hin'|Hin'];
        try reflexivity.
      * exfalso. apply Hin'. now right.
      * exfalso. destruct Hin'; [congruence | contradiction].
Qed.

Lemma increment_tidy (c : counter) (k : string) :
  tidy c -> tidy (increment c k).
Proof.
  intros [Hnd Hpos]. split.
  - rewrite increment_keys. destruct (in_dec string_dec k (map fst c));
      [assumption|].
    apply NoDup_app; [assumption | repeat constructor; easy |].
    intros x Hx [<-|[]]. contradiction.
  - clear Hnd. induction Hpos as [|[k0 n] c Hn Hpos IH]; cbn [increment].
    + repeat constructor. cbn. lia.
    + destruct (String.eqb k k0); constructor; cbn in *; try assumption; lia.
Qed.

Lemma tidy_get (c : counter) (k : string) (n : Z) :
  tidy c -> (In (k, n) c <-> counter_get c k = n /\ 1 <= n).
Proof.
  intros [Hnd Hpos]. induction c as [|[k0 n0] c IH]; cbn [counter_get].
  - split; [intros [] | intros [H1 H2]; lia].
  - inversion Hnd as [|? ? Hnotin Hnd']; subst.
    inversion Hpos as [|? ? Hn0 Hpos']; subst. cbn in Hn0.
    specialize (IH Hnd' Hpos').
    destruct (String.eqb_spec k k0) as [->|Hk].
    + split.
      * intros [H|H]; [injection H as <-; now split|].
        exfalso. apply Hnotin. now apply (in_map fst) in H.
      * intros [<- _]. now left.
    + rewrite <- IH. split; [intros [H|H]; [congruence | assumption] | now right].
Qed.

Lemma frequency_cons (row : csv_row) (rows : list csv_row) (s : string) :
  frequency (row :: rows) s =
  match surname_of row with
  | Some surname => (if String.eqb s surname then 1 else 0) + frequency rows s
  | None => frequency rows s
  end.
Proof.
  unfold frequency, surnames. cbn [flat_map].
  destruct (surname_of row) as [surname|]; [|reflexivity].
  cbn [app count_occ].
  destruct (string_dec surname s) as [->|Hne].
  - rewrite String.eqb_refl. lia.
  - destruct (String.eqb_spec s surname); [congruence | lia].
Qed.

Lemma surname_of_counted (row : csv_row) (value : string) :
  row_get row "name" (Some "") = Some value ->
  strip value <> "" ->
  exists surname,
    item_last (split (strip value)) = Some surname /\
    surname_of row = Some surname.
Proof.
  intros Hrow H. destruct (stripped_name_last_word _ H) as (b & w & Hw & _).
  exists (string_of_list_ascii w). split; [assumption|].
  unfold surname_of. rewrite Hrow. cbn zeta.
  destruct (String.eqb_spec (strip value) "");
    [contradiction | exact Hw].
Qed.

Lemma named_or_nameless (rows : list csv_row) :
  Forall named rows \/ Exists nameless rows.
Proof.
  induction rows as [|row rows [IH|IH]].
  - left. constructor.
  - destruct (row_get row "name" (Some "")) as [value|] eqn:E.
    + left. constructor; [now exists value | assumption].
    + right. now left.
  - right. now right.
Qed.

(** A row without a name value stops the loop, whatever came before it. *)
Lemma count_rows_nameless (rows : list csv_row) :
  Exists nameless rows ->
  forall c, count_rows rows c = inl AttributeError.
Proof.
  induction rows as [|row rows IH]; intros Hsome c.
  - inversion Hsome.
  - cbn [count_rows].
    destruct (row_get row "name" (Some "")) as [value|] eqn:E;
      [|reflexivity].
    assert (Hrest : Exists nameless rows).
    { inversion Hsome as [? ? Hrow|]; [|assumption].
      unfold nameless in Hrow. congruence. }
    cbn zeta.
    destruct (String.eqb_spec (strip value) "") as [He|He]; cbn [negb].
    + now apply IH.
    + destruct (surname_of_counted row value E He) as (surname & -> & _).
      now apply IH.
Qed.

Lemma count_rows_spec (rows : list csv_row) :
  Forall named rows ->
  forall c,
    tidy c ->
    exists c',
      count_rows rows c = inr c' /\ tidy c' /\
      (forall s, counter_get c' s = counter_get c s + frequency rows s) /\
      (forall s, In s (map fst c') <->
                 In s (map fst c) \/ In s (surnames rows)).
Proof.
  induction 1 as [|row rows [value Hrow] _ IH]; intros c Hc;
    cbn [count_rows].
  - exists c. split; [reflexivity|]. split; [assumption|]. split.
    + intros s. unfold frequency. cbn. lia.
    + intros s. cbn. tauto.
  - rewrite Hrow. cbn zeta.
    destruct (String.eqb_spec (strip value) "") as [He|He];
      cbn [negb].
    + destruct (IH c Hc) as (c' & Hrun & Ht & Hget & Hkeys).
      exists c'. split; [assumption|]. split; [assumption|].
      assert (Hnone : surname_of row = None).
      { unfold surname_of. rewrite Hrow. cbn zeta. now rewrite He. }
      split.
      * intros s. rewrite frequency_cons, Hnone. apply Hget.
      * intros s. unfold surnames. cbn [flat_map]. rewrite Hnone.
        apply Hkeys.
    + destruct (surname_of_counted row value Hrow He)
        as (surname & Hlast & Hsome).
      rewrite Hlast.
      destruct (IH (increment c surname) (increment_tidy _ _ Hc))
        as (c' & Hrun & Ht & Hget & Hkeys).
      exists c'. split; [assumption|]. split; [assumption|].
      split.
      * intros s. rewrite frequency_cons, Hsome, Hget, counter_get_increment.
        lia.
      * intros s. rewrite Hkeys, increment_keys. unfold surnames.
        cbn [flat_map]. rewrite Hsome. fold (surnames rows). cbn [app In].
        destruct (in_dec string_dec surname (map fst c)) as [Hin|Hin].
        -- split; [tauto|]. intros [H|[<-|H]]; tauto.
        -- rewrite in_app_iff. cbn [In]. tauto.
Qed.

Lemma max_of_spec (others : list Z) :
  forall first,
    In (max_of first others) (first :: others) /\
    Forall (fun v => v <= max_of first others) (first :: others).
Proof.
  unfold max_of. induction others as [|v others IH]; intros first;
    cbn [fold_left].
  - split; [now left | repeat constructor; lia].
  - destruct (IH (Z.max first v)) as [Hin Hle]. split.
    + destruct Hin as [H|H]; [|now right; right].
      rewrite <- H. destruct (Z.max_spec first v) as [[_ ->]|[_ ->]];
        [right; now left | now left].
    + inversion Hle as [|? ? H1 H2]; subst.
      constructor; [lia|]. constructor; [lia | assumption].
Qed.

Lemma string_compare_lt_trans (a : string) :
  forall b c,
    String.compare a b = Lt -> String.compare b c = Lt ->
    String.compare a c = Lt.
Proof.
  induction a as [|x a IH]; intros [|y b] [|z c]; cbn; try easy.
  unfold Ascii.compare.
  destruct (N.compare_spec (N_of_ascii x) (N_of_ascii y)) as [Hxy|Hxy|Hxy];
    destruct (N.compare_spec (N_of_ascii y) (N_of_ascii z)) as [Hyz|Hyz|Hyz];
    destruct (N.compare_spec (N_of_ascii x) (N_of_ascii z)) as [Hxz|Hxz|Hxz];
    try easy; try lia.
  apply IH.
Qed.

Lemma string_leb_trans (a b c : string) :
  String.leb a b = true -> String.leb b c = true -> String.leb a c = true.
Proof.
  unfold String.leb.
  destruct (String.compare a b) eqn:Hab; try discriminate;
    destruct (String.compare b c) eqn:Hbc; try discriminate; intros _ _.
  - apply String.compare_eq_iff in Hab. subst. now rewrite Hbc.
  - apply String.compare_eq_iff in Hab. subst. now rewrite Hbc.
  - apply String.compare_eq_iff in Hbc. subst. now rewrite Hab.
  - now rewrite (string_compare_lt_trans _ _ _ Hab Hbc).
Qed.

Lemma sort_perm (l : list string) : Permutation (sort l) l.
Proof. apply sorted_reverse_perm. Qed.

Lemma sort_sorted (l : list string) : StronglySorted string_le (sort l).
Proof.
  change (StronglySorted
            (not_below (fun a b => String.leb b a) (fun s => s)) (sort l)).
  apply sorted_reverse_sorted.
  - intros a b. apply String.leb_total.
  - intros a b c H1 H2. exact (string_leb_trans _ _ _ H2 H1).
Qed.

Lemma sorted_unique (l1 : list string) :
  forall l2,
    StronglySorted string_le l1 -> StronglySorted string_le l2 ->
    NoDup l1 -> NoDup l2 ->
    (forall s, In s l1 <-> In s l2) ->
    l1 = l2.
Proof.
  induction l1 as [|a l1 IH]; intros [|b l2] S1 S2 N1 N2 Hin.
  - reflexivity.
  - exfalso. apply (proj2 (Hin b)). now left.
  - exfalso. apply (proj1 (Hin a)). now left.
  - inversion S1 as [|? ? S1' F1]; subst. inversion S2 as [|? ? S2' F2]; subst.
    inversion N1 as [|? ? Na N1']; subst. inversion N2 as [|? ? Nb N2']; subst.
    rewrite Forall_forall in F1, F2.
    assert (a = b).
    { destruct (proj1 (Hin a) (or_introl eq_refl)) as [Hba|Hba]; [congruence|].
      destruct (proj2 (Hin b) (or_introl eq_refl)) as [Hab|Hab]; [congruence|].
      apply String.leb_antisym; [exact (F1 _ Hab) | exact (F2 _ Hba)]. }
    subst b. f_equal. apply IH; try assumption.
    intros s. split; intros Hs.
    + destruct (proj1 (Hin s) (or_intror Hs)) as [<-|H]; [contradiction | exact H].
    + destruct (proj2 (Hin s) (or_intror Hs)) as [<-|H]; [contradiction | exact H].
Qed.

Lemma NoDup_keys_filter (f : string * Z -> bool) (c : counter) :
  NoDup (map fst c) -> NoDup (map fst (filter f c)).
Proof.
  induction c as [|kv c IH]; cbn [map filter]; intros H; [constructor|].
  inversion H as [|? ? Hn H']; subst.
  destruct (f kv); cbn [map]; [|now apply IH].
  constructor; [|now apply IH].
  intros Hin. apply Hn. apply in_map_iff in Hin.
  destruct Hin as (kv' & Hk & Hkv'). apply filter_In in Hkv'.
  apply in_map_iff. exists kv'. tauto.
Qed.

Lemma most_common_spec (c : counter) :
  tidy c -> c <> [] ->
  exists l m,
    most_common_surnames c = Some (l, m) /\
    1 <= m /\
    (exists k, In (k, m) c) /\
    (forall k n, In (k, n) c -> n <= m) /\
    (forall s, In s l <-> In (s, m) c) /\
    NoDup l /\
    StronglySorted string_le l.
Proof.
  intros Hc Hne. destruct c as [|[k0 first] others]; [congruence|].
  cbn [most_common_surnames].
  set (m := max_of first (map snd others)).
  destruct (max_of_spec (map snd others) first) as [Hin Hle]. fold m in Hin, Hle.
  change (first :: map snd others) with (map snd ((k0, first) :: others))
    in Hin, Hle.
  set (c := (k0, first) :: others) in *.
  assert (Hm : exists k, In (k, m) c).
  { apply in_map_iff in Hin. destruct Hin as ([k n] & Hn & Hkn).
    cbn in Hn. subst n. now exists k. }
  assert (Hmax : forall k n, In (k, n) c -> n <= m).
  { intros k n Hkn. rewrite Forall_forall in Hle. apply Hle.
    apply in_map_iff. now exists (k, n). }
  eexists _, m. split; [reflexivity|].
  split.
  { destruct Hm as [k Hk]. destruct Hc as [_ Hpos].
    rewrite Forall_forall in Hpos. exact (Hpos _ Hk). }
  split; [exact Hm|]. split; [exact Hmax|].
  split; [|split].
  - intros s. rewrite sort_perm, in_map_iff. split.
    + intros ([k n] & Hk & Hkn). cbn in Hk. subst k.
      apply filter_In in Hkn. destruct Hkn as [Hkn Hn]. cbn in Hn.
      apply Z.eqb_eq in Hn. now subst n.
    + intros Hs. exists (s, m). split; [reflexivity|].
      apply filter_In. split; [assumption|]. cbn. apply Z.eqb_refl.
  - apply (Permutation_NoDup (Permutation_sym (sort_perm _))).
    apply NoDup_keys_filter. apply Hc.
  - apply sort_sorted.
Qed.

Lemma count_rows_from_empty (rows : list csv_row) :
  Forall named rows ->
  exists c,
    count_rows rows [] = inr c /\ tidy c /\
    (forall s, counter_get c s = frequency rows s) /\
    (forall s, In s (map fst c) <-> In s (surnames rows)).
Proof.
  intros Hrows.
  destruct (count_rows_spec rows Hrows []) as (c & Hrun & Ht & Hget & Hkeys).
  { split; constructor. }
  exists c. split; [assumption|]. split; [assumption|]. split.
  - intros s. rewrite Hget. cbn. lia.
  - intros s. rewrite Hkeys. cbn. tauto.
Qed.

Lemma printed_nameless (rows : list csv_row) :
  Exists nameless rows -> printed rows = inl AttributeError.
Proof.
  intros H. unfold printed. now rewrite count_rows_nameless.
Qed.

Lemma printed_spec (rows : list csv_row) :
  Forall named rows ->
  (surnames rows = [] -> printed rows = inr "No names found.") /\
  (surnames rows <> [] ->
   exists l m,
     printed rows =
     inr (String.concat ", " l ++ ": " ++ str_of_int m)%string /\
     l <> [] /\
     1 <= m /\
     (forall s, frequency rows s <= m) /\
     (forall s, In s l <-> frequency rows s = m) /\
     NoDup l /\
     StronglySorted string_le l).
Proof.
  intros Hrows.
  destruct (count_rows_from_empty rows Hrows)
    as (c & Hrun & Ht & Hget & Hkeys).
  unfold printed. rewrite Hrun. split.
  - intros Hnone. destruct c as [|[k n] c]; [reflexivity|].
    exfalso. specialize (proj1 (Hkeys k) (or_introl eq_refl)).
    now rewrite Hnone.
  - intros Hsome.
    assert (Hne : c <> []).
    { intros ->. destruct (surnames rows) as [|s l] eqn:E; [congruence|].
      apply (proj2 (Hkeys s)). now left. }
    destruct (most_common_spec c Ht Hne)
      as (l & m & Hmc & Hm & [k Hk] & Hmax & Hl & Hnd & Hsorted).
    rewrite Hmc. exists l, m. split; [reflexivity|].
    assert (Hfreq : forall s, In (s, m) c <-> frequency rows s = m).
    { intros s. rewrite (tidy_get c s m Ht), Hget. tauto. }
    split.
    { intros ->. now apply (proj2 (Hl k)) in Hk. }
    split; [assumption|]. split.
    { intros s. destruct (in_dec string_dec s (map fst c)) as [Hin|Hin].
      - apply in_map_iff in Hin. destruct Hin as ([s' n] & Hs & Hsn).
        cbn in Hs. subst s'. pose proof (Hmax _ _ Hsn) as Hn.
        apply (tidy_get c s n Ht) in Hsn. rewrite Hget in Hsn. lia.
      - assert (frequency rows s = 0); [|lia].
        rewrite <- Hget. clear -Hin. induction c as [|[k n] c IH]; cbn;
          [reflexivity|].
        destruct (String.eqb_spec s k) as [->|Hne].
        + exfalso. apply Hin. now left.
        + apply IH. intros H. apply Hin. now right. }
    split; [|split; assumption].
    intros s. now rewrite Hl, Hfreq.
Qed.

(** X14: when every row has a string for its name (the empty one of a
    table without the column included), the loop ends and the cell's counter
    holds, for every surname, the number of rows with that surname, no
    surname twice, and exactly the surnames that occur.  When some row has
    [None] for its name, the loop stops with [AttributeError]. *)
Theorem surname_counter_counts (rows : list csv_row) :
  (Forall named rows ->
   exists c,
     count_rows rows [] = inr c /\
     NoDup (map fst c) /\
     (forall s, counter_get c s = frequency rows s) /\
     (forall s, In s (map fst c) <-> In s (surnames rows))) /\
  (Exists nameless rows -> count_rows rows [] = inl AttributeError).
Proof.
  split.
  - intros Hrows.
    destruct (count_rows_from_empty rows Hrows)
      as (c & Hrun & [Hnd _] & Hget & Hkeys).
    exists c. auto.
  - intros Hrows. now apply count_rows_nameless.
Qed.

(** X15: when every row has a string for its name, the cell prints
    ["No names found."] if no name has a word, and otherwise surnames and a
    count: the count is the highest number of rows any surname has, at least
    1, and the surnames are exactly those with that many rows, each once, in
    ascending order.  When some row has [None] for its name, nothing is
    printed: the cell stops with [AttributeError]. *)
Theorem printed_line (rows : list csv_row) :
  (Forall named rows ->
   (surnames rows = [] -> printed rows = inr "No names found.") /\
   (surnames rows <> [] ->
    exists l m,
      printed rows =
      inr (String.concat ", " l ++ ": " ++ str_of_int m)%string /\
      l <> [] /\
      1 <= m /\
      (forall s, frequency rows s <= m) /\
      (forall s, In s l <-> frequency rows s = m) /\
      NoDup l /\
      StronglySorted string_le l)) /\
  (Exists nameless rows -> printed rows = inl AttributeError).
Proof.
  split; [exact (printed_spec rows) | exact (printed_nameless rows)].
Qed.

(** X16: what the cell prints does not depend on the order of the rows. *)
Theorem printed_ignores_row_order (rows rows' : list csv_row) :
  Permutation rows rows' -> printed rows = printed rows'.
Proof.
  intros Hperm.
  destruct (named_or_nameless rows) as [Hrows|Hrows].
  2:{ rewrite (printed_nameless rows Hrows). symmetry.
      apply printed_nameless. apply Exists_exists in Hrows.
      destruct Hrows as (row & Hin & Hrow). apply Exists_exists.
      exists row. split; [|assumption].
      now apply (Permutation_in row Hperm). }
  assert (Hrows' : Forall named rows').
  { now apply (Permutation_Forall Hperm). }
  assert (Hsur : Permutation (surnames rows) (surnames rows')).
  { unfold surnames. now apply Permutation_flat_map. }
  assert (Hfreq : forall s, frequency rows s = frequency rows' s).
  { intros s. unfold frequency. f_equal.
    now apply (Permutation_count_occ string_dec). }
  destruct (printed_spec rows Hrows) as [Hnone Hsome].
  destruct (printed_spec rows' Hrows') as [Hnone' Hsome'].
  destruct (surnames rows) as [|s0 l0] eqn:E.
  - apply Permutation_nil in Hsur.
    now rewrite (Hnone eq_refl), (Hnone' Hsur).
  - assert (Hne' : surnames rows' <> []).
    { intros H. rewrite H in Hsur. apply Permutation_sym in Hsur.
      apply Permutation_nil in Hsur. discriminate Hsur. }
    destruct (Hsome ltac:(discriminate))
      as (l & m & Hp & Hl0 & Hm & Hmax & Hin & Hnd & Hs).
    destruct (Hsome' Hne')
      as (l' & m' & Hp' & Hl0' & Hm' & Hmax' & Hin' & Hnd' & Hs').
    rewrite Hp, Hp'.
    assert (m = m').
    { destruct l as [|s l]; [congruence|].
      destruct l' as [|s' l']; [congruence|].
      pose proof (proj1 (Hin s) (or_introl eq_refl)) as H1.
      pose proof (proj1 (Hin' s') (or_introl eq_refl)) as H2.
      pose proof (Hmax s') as H3. pose proof (Hmax' s) as H4.
      rewrite Hfreq in H1, H3. lia. }
    subst m'. assert (l = l'); [|now subst l'].
    apply sorted_unique; try assumption.
    intros s. now rewrite Hin, Hin', Hfreq.
Qed.

End Counting.

(** X14, on a table with a blank name and a row without the column, and on
    a table with a line too short to have a name. *)
Lemma surname_counter_counts_witness :
  let rows := [[("login", Some "a"); ("name", Some " Ada Lovelace ")];
               [("login", Some "b"); ("name", Some "")];
               [("login", Some "c")];
               [("login", Some "d"); ("name", Some "Bob  Lovelace")]] in
  let short := [[("login", Some "a"); ("name", Some "Ada Lovelace")];
                [("login", Some "b"); ("name", None)]] in
  (exists c,
      Surnames.count_rows rows [] = inr c /\
      NoDup (map fst c) /\
      (forall s, Surnames.counter_get c s = SurnameWords.frequency rows s) /\
      (forall s, In s (map fst c) <-> In s (SurnameWords.surnames rows))) /\
  Surnames.count_rows rows [] = inr [("Lovelace", 2)] /\
  Surnames.count_rows short [] = inl AttributeError.
Proof.
  intros rows short. split; [|split].
  - apply (proj1 (surname_counter_counts rows)).
    repeat constructor; eexists; reflexivity.
  - reflexivity.
  - apply (proj2 (surname_counter_counts short)).
    right. left. reflexivity.
Defined.

(** X16, on two rows exchanged. *)
Lemma printed_ignores_row_order_witness :
  Surnames.printed [[("name", Some "Ada King")]; [("name", Some "Bo Adams")]] =
  Surnames.printed [[("name", Some "Bo Adams")]; [("name", Some "Ada King")]].
Proof.
  apply (printed_ignores_row_order
           [[("name", Some "Ada King")]; [("name", Some "Bo Adams")]]
           [[("name", Some "Bo Adams")]; [("name", Some "Ada King")]]).
  apply perm_swap.
Defined.

(** X15, on a table with two surnames level at two rows, and on a table
    with a line too short to have a name. *)
Lemma printed_line_witness :
  let rows := [[("login", Some "a"); ("name", Some " Ada Lovelace ")];
               [("name", Some "Bob  Lovelace")]; [("name", Some "  ")];
               [("name", Some "Carl Adams")]; [("name", Some "Zed Adams")];
               [("name", Some "Q")]] in
  let short := [[("login", Some "a"); ("name", Some "Ada Lovelace")];
                [("login", Some "b"); ("name", None)]] in
  Surnames.printed rows = inr "Adams, Lovelace: 2" /\
  (exists l m,
      Surnames.printed rows =
      inr (String.concat ", " l ++ ": " ++ Surnames.str_of_int m)%string /\
      l <> [] /\
      1 <= m /\
      (forall s, SurnameWords.frequency rows s <= m) /\
      (forall s, In s l <-> SurnameWords.frequency rows s = m) /\
      NoDup l /\
      StronglySorted SurnameWords.string_le l) /\
  Surnames.printed short = inl AttributeError.
Proof.
  intros rows short. split; [reflexivity|]. split.
  - apply (proj2 (proj1 (printed_line rows)
                        ltac:(repeat constructor; eexists; reflexivity))).
    discriminate.
  - apply (proj2 (printed_line short)). right. left. reflexivity.
Defined.

(** * The top five of the first cell *)

Section Top_five.

Import PyStr Analysis.

Lemma StronglySorted_app_order {A : Type} (R : A -> A -> Prop)
      (l1 l2 : list A) :
  StronglySorted R (l1 ++ l2) ->
  forall a b, In a l1 -> In b l2 -> R a b.
Proof.
  induction l1 as [|x l1 IH]; intros H a b Ha Hb; [destruct Ha|].
  cbn [app] in H. inversion H as [|? ? Hs Hx]; subst.
  destruct Ha as [<-|Ha].
  - rewrite Forall_forall in Hx. apply Hx. apply in_or_app. now right.
  - now apply IH.
Qed.

(** X17: the cell lists five logins, or as many as there are rows whose
    location mentions Seattle when these are fewer; each is the login of such
    a row of the table; and no such row left out has more followers than a
    row that is listed. *)
Theorem top_5_logins_are_the_top (table : list user_row) :
  length (top_5_logins table) = Nat.min 5 (length (filter in_seattle table)) /\
  (forall l,
      In l (top_5_logins table) ->
      exists row,
        In row table /\ in_seattle row = true /\ row_login row = l) /\
  (forall kept left_out,
      In kept (firstn 5 (top_users table)) ->
      In left_out (skipn 5 (top_users table)) ->
      snd left_out <= snd kept).
Proof.
  assert (Hperm : Permutation (top_users table) (users_in_seattle table))
    by apply sorted_reverse_perm.
  split; [|split].
  - unfold top_5_logins. rewrite length_map, length_firstn.
    rewrite (Permutation_length Hperm). unfold users_in_seattle.
    now rewrite length_map.
  - intros l Hl. unfold top_5_logins in Hl. apply in_map_iff in Hl.
    destruct Hl as ([l' n] & Hfst & He). cbn in Hfst. subst l'.
    assert (Hin : In (l, n) (top_users table)).
    { rewrite <- (firstn_skipn 5 (top_users table)). apply in_or_app.
      now left. }
    rewrite Hperm in Hin. unfold users_in_seattle in Hin.
    apply in_map_iff in Hin. destruct Hin as (row & Hrow & Hin).
    apply filter_In in Hin. exists row. injection Hrow as Hlogin _. tauto.
  - intros kept left_out Hk Hl.
    assert (Hs : StronglySorted (not_below Z.leb snd)
                                (firstn 5 (top_users table)
                                 ++ skipn 5 (top_users table))).
    { rewrite firstn_skipn. apply sorted_reverse_sorted.
      - intros a b. rewrite !Z.leb_le. lia.
      - intros a b c. rewrite !Z.leb_le. lia. }
    pose proof (StronglySorted_app_order _ _ _ Hs kept left_out Hk Hl) as H.
    unfold not_below in H. now apply Z.leb_le in H.
Qed.

End Top_five.

(** X17, on a table of seven rows in Seattle and one elsewhere. *)
Lemma top_5_logins_are_the_top_witness :
  let row login location followers :=
    {| Analysis.row_login := login; Analysis.row_location := location;
       Analysis.row_followers := followers; Analysis.row_following := 0 |} in
  let table := [row "a" "Seattle, WA" 5; row "b" " SEATTLE " 7;
                row "c" "Tacoma" 100; row "d" "seattle" 5;
                row "e" "Greater Seattle Area" 7; row "f" "Seattle" 6;
                row "g" "seattle" 7; row "h" "seattle" 5] in
  exists r,
    In r table /\ Analysis.in_seattle r = true /\ Analysis.row_login r = "f".
Proof.
  intros row table.
  apply (proj1 (proj2 (top_5_logins_are_the_top table)) "f").
  vm_compute. right. right. right. left. reflexivity.
Defined.
